(** * Data quality validation of the portfolio site

    A shallow embedding of the data quality validator
    ([lib/dataQualityValidator.ts]: [entityIdSchema], [validateDataQuality],
    [deduplicateData], [optimizeData]) and of the quality check of the admin
    hook ([hooks/useAdminData]: [runQualityCheck] and the quality score of
    [stats]), with the properties the specification states about them.

    Conventions of the embedding:
    - a JavaScript string is a [string]; string equality ([===], [Set.has],
      [Map.get]) is equality of the character sequences;
    - a [number] that the code only uses as a counter is a [Z];
    - a [Set<string>] is a [gset string]; a [Map<string, number>], whose
      iteration order the code observes through [forEach], is an association
      list in insertion order;
    - the [report] object that the closures of [validateDataQuality] mutate
      is threaded explicitly, and [Array.prototype.forEach] is a left fold
      of the callback over the array. *)

From Stdlib Require Import ZArith Ascii String DecimalString.
From stdpp Require Import base decidable option list sets gmap strings sorting.

#[local] Open Scope Z_scope.

(** ** Data model (the types inferred from the Zod schemas) *)

Inductive CompanyType :=
  | MainPartner | TechnologyPartner | SolutionProvider | Category | InvalidEntry.

Inductive CompanyStatus := CompanyActive | CompanyInactive | CompanyMentioned.

Inductive ModuleCategory := CoreModule | BusinessModule | IntegrationModule.

Inductive ProjectStatus := Completed | Planned | InProgress | OnHold.

Inductive IntegrationStatus :=
  | IntegrationActive | IntegrationPlanned | IntegrationDeprecated.

Inductive ValidationStatus := Passed | Failed | Pending.

#[global] Instance CompanyStatus_eq_dec : EqDecision CompanyStatus.
Proof. solve_decision. Defined.

Record Company := {
  company_id : string;
  company_name : string;
  company_type : CompanyType;
  company_status : CompanyStatus;
}.

Record Technology := {
  tech_id : string;
  tech_name : string;
  tech_category : string;
  tech_subcategory : option string;
}.

Record ModuleEntity := {
  module_id : string;
  module_name : string;
  module_type : string;
  module_category : ModuleCategory;
  module_platform : option string;
}.

Record DataProject := {
  project_id : string;
  project_name : string;
  project_status : ProjectStatus;
  project_description : string;
  project_partners : list string;
  project_technologies : list string;
  project_platforms : list string;
  project_modules : list string;
  project_deliverables : list string;
}.

Record Integration := {
  integration_id : string;
  integration_source : string;
  integration_target : string;
  integration_type : string;
  integration_status : IntegrationStatus;
  integration_projects : list string;
}.

Record ProjectMetadata := {
  meta_name : string;
  meta_version : string;
  meta_lastUpdated : string;
  meta_description : string;
}.

Record Entities := {
  companies : list Company;
  technologies : list Technology;
  modules : list ModuleEntity;
}.

Record Relationships := {
  companyTechnologies : list (string * list string);
  projectModules : list (string * list string);
  technologyDependencies : list (string * list string);
}.

Record DataQualityInfo := {
  validationRules : list (string * string);
  lastValidated : string;
  validationStatus : ValidationStatus;
}.

Record PortfolioData := {
  projectMetadata : ProjectMetadata;
  entities : Entities;
  projects : list DataProject;
  integrations : list Integration;
  relationships : Relationships;
  dataQuality : option DataQualityInfo;
}.

(** The bound [T extends { id: string }] of the generic helpers. *)
Class HasId (T : Type) := entity_id : T → string.

#[global] Instance Company_HasId : HasId Company := company_id.
#[global] Instance Technology_HasId : HasId Technology := tech_id.
#[global] Instance ModuleEntity_HasId : HasId ModuleEntity := module_id.
#[global] Instance DataProject_HasId : HasId DataProject := project_id.
#[global] Instance Integration_HasId : HasId Integration := integration_id.

(** ** The quality report *)

Inductive ErrorType :=
  | Duplicate | MissingReference | InvalidData | SchemaViolation.

Inductive WarningType := UnusedEntity | CircularReference | Deprecated.

#[global] Instance ErrorType_eq_dec : EqDecision ErrorType.
Proof. solve_decision. Defined.

#[global] Instance WarningType_eq_dec : EqDecision WarningType.
Proof. solve_decision. Defined.

Record QualityError := {
  err_type : ErrorType;
  err_entity : string;
  err_field : option string;
  err_message : string;
  err_value : option string;
}.

Record QualityWarning := {
  warn_type : WarningType;
  warn_entity : string;
  warn_message : string;
}.

Record QualityStats := {
  totalEntities : Z;
  duplicates : Z;
  brokenReferences : Z;
  unusedEntities : Z;
}.

Record DataQualityReport := {
  isValid : bool;
  errors : list QualityError;
  warnings : list QualityWarning;
  stats : QualityStats;
}.

#[global] Instance QualityError_eq_dec : EqDecision QualityError.
Proof. solve_decision. Defined.

#[global] Instance QualityWarning_eq_dec : EqDecision QualityWarning.
Proof. solve_decision. Defined.

(** The report [validateDataQuality] starts from. *)
Definition empty_report : DataQualityReport :=
  {| isValid := true; errors := []; warnings := [];
     stats := {| totalEntities := 0; duplicates := 0;
                 brokenReferences := 0; unusedEntities := 0 |} |}.

(** *** The mutations the closures perform on [report] *)

(** [report.errors.push(e); report.stats.duplicates++; report.isValid = false] *)
Definition report_duplicate (e : QualityError) (r : DataQualityReport) :
    DataQualityReport :=
  {| isValid := false; errors := errors r ++ [e]; warnings := warnings r;
     stats := {| totalEntities := totalEntities (stats r);
                 duplicates := duplicates (stats r) + 1;
                 brokenReferences := brokenReferences (stats r);
                 unusedEntities := unusedEntities (stats r) |} |}.

(** [report.errors.push(e); report.stats.brokenReferences++;
    report.isValid = false] *)
Definition report_broken (e : QualityError) (r : DataQualityReport) :
    DataQualityReport :=
  {| isValid := false; errors := errors r ++ [e]; warnings := warnings r;
     stats := {| totalEntities := totalEntities (stats r);
                 duplicates := duplicates (stats r);
                 brokenReferences := brokenReferences (stats r) + 1;
                 unusedEntities := unusedEntities (stats r) |} |}.

(** [report.warnings.push(w); report.stats.unusedEntities++] *)
Definition report_unused (w : QualityWarning) (r : DataQualityReport) :
    DataQualityReport :=
  {| isValid := isValid r; errors := errors r; warnings := warnings r ++ [w];
     stats := {| totalEntities := totalEntities (stats r);
                 duplicates := duplicates (stats r);
                 brokenReferences := brokenReferences (stats r);
                 unusedEntities := unusedEntities (stats r) + 1 |} |}.

(** [report.stats.totalEntities += n] *)
Definition add_totalEntities (n : Z) (r : DataQualityReport) :
    DataQualityReport :=
  {| isValid := isValid r; errors := errors r; warnings := warnings r;
     stats := {| totalEntities := totalEntities (stats r) + n;
                 duplicates := duplicates (stats r);
                 brokenReferences := brokenReferences (stats r);
                 unusedEntities := unusedEntities (stats r) |} |}.

(** ** [validateDataQuality] *)

(** The double quote character of the message templates. *)
Definition dquote : string := String (ascii_of_nat 34) EmptyString.

(** *** Pass 1: duplicate ids, [checkDuplicates] *)

Definition duplicate_error (entityType id : string) : QualityError :=
  {| err_type := Duplicate; err_entity := entityType;
     err_field := Some "id";
     err_message := "Duplicate ID found: " +:+ id;
     err_value := Some id |}.

(** The callback of [entities.forEach] inside [checkDuplicates]; its state
    is the local set [ids] and the shared [report]. *)
Definition checkDuplicates_step {T} `{HasId T} (entityType : string)
    (st : gset string * DataQualityReport) (entity : T) :
    gset string * DataQualityReport :=
  let report :=
    if decide (entity_id entity ∈ st.1)
    then report_duplicate (duplicate_error entityType (entity_id entity)) st.2
    else st.2 in
  ({[entity_id entity]} ∪ st.1, report).

Definition checkDuplicates {T} `{HasId T} (entities : list T)
    (entityType : string) (report : DataQualityReport) : DataQualityReport :=
  let st := foldl (checkDuplicates_step entityType) (∅, report) entities in
  add_totalEntities (Z.of_nat (length entities)) st.2.

(** *** Pass 2: references *)

Definition project_reference_error (field kind : string)
    (project : DataProject) (refId : string) : QualityError :=
  {| err_type := MissingReference; err_entity := "projects";
     err_field := Some field;
     err_message := "Project " +:+ dquote +:+ project_name project
       +:+ dquote +:+ " references non-existent " +:+ kind +:+ ": " +:+ refId;
     err_value := Some refId |}.

(** The three inner [forEach] callbacks of the project loop have the same
    shape: test the id against a set, report a broken reference otherwise. *)
Definition check_project_ref (known : gset string) (field kind : string)
    (project : DataProject) (report : DataQualityReport) (refId : string) :
    DataQualityReport :=
  if decide (refId ∈ known) then report
  else report_broken (project_reference_error field kind project refId) report.

Definition validate_project (companyIds techIds moduleIds : gset string)
    (report : DataQualityReport) (project : DataProject) : DataQualityReport :=
  let report :=
    foldl (check_project_ref companyIds "partners" "company" project)
      report (project_partners project) in
  let report :=
    foldl (check_project_ref techIds "technologies" "technology" project)
      report (project_technologies project) in
  foldl (check_project_ref moduleIds "modules" "module" project)
    report (project_modules project).

Definition integration_reference_error (field kind : string)
    (integration : Integration) (refId : string) : QualityError :=
  {| err_type := MissingReference; err_entity := "integrations";
     err_field := Some field;
     err_message := "Integration " +:+ dquote +:+ integration_id integration
       +:+ dquote +:+ " references non-existent " +:+ kind +:+ ": " +:+ refId;
     err_value := Some refId |}.

(** The local closure [validateRef]. *)
Definition validateRef (techIds moduleIds : gset string)
    (integration : Integration) (refId field : string)
    (report : DataQualityReport) : DataQualityReport :=
  if decide (refId ≠ "system" ∧ (refId ∉ techIds) ∧ (refId ∉ moduleIds))
  then report_broken
         (integration_reference_error field "entity" integration refId) report
  else report.

Definition check_integration_project (projectIds : gset string)
    (integration : Integration) (report : DataQualityReport)
    (projectId : string) : DataQualityReport :=
  if decide (projectId ∈ projectIds) then report
  else report_broken
         (integration_reference_error "projects" "project" integration projectId)
         report.

Definition validate_integration (techIds moduleIds projectIds : gset string)
    (report : DataQualityReport) (integration : Integration) :
    DataQualityReport :=
  let report :=
    validateRef techIds moduleIds integration
      (integration_source integration) "source" report in
  let report :=
    validateRef techIds moduleIds integration
      (integration_target integration) "target" report in
  foldl (check_integration_project projectIds integration)
    report (integration_projects integration).

(** *** Pass 3: unused entities *)

(** The three sets [usedTechIds], [usedModuleIds], [usedCompanyIds]. *)
Record UsedIds := {
  usedTechIds : gset string;
  usedModuleIds : gset string;
  usedCompanyIds : gset string;
}.

Definition add_all (ids : list string) (s : gset string) : gset string :=
  foldl (λ s id, {[id]} ∪ s) s ids.

Definition collect_project (used : UsedIds) (project : DataProject) : UsedIds :=
  {| usedTechIds := add_all (project_technologies project) (usedTechIds used);
     usedModuleIds := add_all (project_modules project) (usedModuleIds used);
     usedCompanyIds := add_all (project_partners project) (usedCompanyIds used) |}.

Definition collect_integration (used : UsedIds) (integration : Integration) :
    UsedIds :=
  let techs := usedTechIds used in
  let techs :=
    if decide (integration_source integration ≠ "system")
    then {[integration_source integration]} ∪ techs else techs in
  let techs :=
    if decide (integration_target integration ≠ "system")
    then {[integration_target integration]} ∪ techs else techs in
  {| usedTechIds := techs;
     usedModuleIds := usedModuleIds used;
     usedCompanyIds := usedCompanyIds used |}.

Definition unused_technology_warning (tech : Technology) : QualityWarning :=
  {| warn_type := UnusedEntity; warn_entity := "technologies";
     warn_message := "Technology " +:+ dquote +:+ tech_name tech +:+ dquote +:+ " ("
       +:+ tech_id tech +:+ ") is not used in any project or integration" |}.

Definition unused_module_warning (module : ModuleEntity) : QualityWarning :=
  {| warn_type := UnusedEntity; warn_entity := "modules";
     warn_message := "Module " +:+ dquote +:+ module_name module +:+ dquote +:+ " ("
       +:+ module_id module +:+ ") is not used in any project" |}.

Definition unused_company_warning (company : Company) : QualityWarning :=
  {| warn_type := UnusedEntity; warn_entity := "companies";
     warn_message := "Active company " +:+ dquote +:+ company_name company +:+ dquote
       +:+ " ("
       +:+ company_id company +:+ ") is not associated with any project" |}.

Definition check_technology_used (used : gset string)
    (report : DataQualityReport) (tech : Technology) : DataQualityReport :=
  if decide (tech_id tech ∈ used) then report
  else report_unused (unused_technology_warning tech) report.

Definition check_module_used (used : gset string)
    (report : DataQualityReport) (module : ModuleEntity) : DataQualityReport :=
  if decide (module_id module ∈ used) then report
  else report_unused (unused_module_warning module) report.

Definition check_company_used (used : gset string)
    (report : DataQualityReport) (company : Company) : DataQualityReport :=
  if decide (company_status company = CompanyActive
             ∧ (company_id company ∉ used))
  then report_unused (unused_company_warning company) report
  else report.

(** The two loops that fill the three sets. *)
Definition collectUsedIds (data : PortfolioData) : UsedIds :=
  let used :=
    {| usedTechIds := ∅; usedModuleIds := ∅; usedCompanyIds := ∅ |} in
  let used := foldl collect_project used (projects data) in
  foldl collect_integration used (integrations data).

(** *** The whole function *)

Definition validateDataQuality (data : PortfolioData) : DataQualityReport :=
  let report := empty_report in
  (* Validate all entity collections *)
  let report := checkDuplicates (companies (entities data)) "companies" report in
  let report :=
    checkDuplicates (technologies (entities data)) "technologies" report in
  let report := checkDuplicates (modules (entities data)) "modules" report in
  let report := checkDuplicates (projects data) "projects" report in
  let report := checkDuplicates (integrations data) "integrations" report in
  (* Build reference maps *)
  let companyIds : gset string :=
    list_to_set (company_id <$> companies (entities data)) in
  let techIds : gset string :=
    list_to_set (tech_id <$> technologies (entities data)) in
  let moduleIds : gset string :=
    list_to_set (module_id <$> modules (entities data)) in
  let projectIds : gset string := list_to_set (project_id <$> projects data) in
  (* Validate foreign key references in projects *)
  let report :=
    foldl (validate_project companyIds techIds moduleIds) report
      (projects data) in
  (* Validate integrations *)
  let report :=
    foldl (validate_integration techIds moduleIds projectIds) report
      (integrations data) in
  (* Check for unused entities *)
  let used := collectUsedIds data in
  let report :=
    foldl (check_technology_used (usedTechIds used)) report
      (technologies (entities data)) in
  let report :=
    foldl (check_module_used (usedModuleIds used)) report
      (modules (entities data)) in
  foldl (check_company_used (usedCompanyIds used)) report
    (companies (entities data)).

(** ** [deduplicateData] *)

(** The callback of [entities.filter] closes over the set [seen] and is
    called on the elements in order; [deduplicate_from seen] is the filter
    run from a given content of [seen]. *)
Fixpoint deduplicate_from {T} `{HasId T} (seen : gset string)
    (entities : list T) : list T :=
  match entities with
  | [] => []
  | entity :: rest =>
      if decide (entity_id entity ∈ seen) then deduplicate_from seen rest
      else entity :: deduplicate_from ({[entity_id entity]} ∪ seen) rest
  end.

Definition deduplicate {T} `{HasId T} (entities : list T) : list T :=
  deduplicate_from ∅ entities.

Definition deduplicateData (data : PortfolioData) : PortfolioData :=
  {| projectMetadata := projectMetadata data;
     entities :=
       {| companies := deduplicate (companies (entities data));
          technologies := deduplicate (technologies (entities data));
          modules := deduplicate (modules (entities data)) |};
     projects := deduplicate (projects data);
     integrations := deduplicate (integrations data);
     relationships := relationships data;
     dataQuality := dataQuality data |}.

(** ** [optimizeData] *)

Definition optimizeData (data : PortfolioData) (removeUnused : bool) :
    PortfolioData :=
  if negb removeUnused then data
  else
    let report := validateDataQuality data in
    let unusedIds : gset string :=
      list_to_set
        (warn_entity <$>
           filter (λ w, warn_type w = UnusedEntity) (warnings report)) in
    (* This is a simplified optimization *)
    data.

(** ** [entityIdSchema]

    [z.string().min(1, ..).regex(/^[a-z0-9_-]+$/, ..)
       .transform(val => val.toLowerCase().trim())].

    A Zod string schema runs all its checks on the input as it is given and
    collects one issue per failed check; the transform is applied to the
    checked input, and only when no check failed.

    Characters are code units below 256, so that [toLowerCase] and [trim]
    are the Latin-1 part of the JavaScript functions. *)

Inductive ParseResult (A : Type) :=
  | ParseOk (value : A)
  | ParseError (issues : list string).
Arguments ParseOk {A} value.
Arguments ParseError {A} issues.

Definition code_in (lo hi : nat) (c : ascii) : bool :=
  (lo <=? nat_of_ascii c)%nat && (nat_of_ascii c <=? hi)%nat.

(** The character class [[a-z0-9_-]]. *)
Definition id_char (c : ascii) : bool :=
  code_in 97 122 c || code_in 48 57 c || code_in 95 95 c || code_in 45 45 c.

Fixpoint all_chars (p : ascii → bool) (s : string) : bool :=
  match s with
  | EmptyString => true
  | String c s' => p c && all_chars p s'
  end.

(** [/^[a-z0-9_-]+$/.test(s)]: without the [m] flag the anchors are the two
    ends of the input, and [+] asks for one character at least. *)
Definition id_regex_test (s : string) : bool :=
  match s with
  | EmptyString => false
  | String _ _ => all_chars id_char s
  end.

(** [toLowerCase] on one code unit: A-Z, and the Latin-1 capitals
    U+00C0-U+00DE without the multiplication sign U+00D7. *)
Definition lower_char (c : ascii) : ascii :=
  if code_in 65 90 c || code_in 192 214 c || code_in 216 222 c
  then ascii_of_nat (nat_of_ascii c + 32)
  else c.

Fixpoint toLowerCase (s : string) : string :=
  match s with
  | EmptyString => EmptyString
  | String c s' => String (lower_char c) (toLowerCase s')
  end.

(** White space and line terminators of [trim]: TAB, LF, VT, FF, CR, SP and
    the no-break space U+00A0. *)
Definition space_char (c : ascii) : bool :=
  code_in 9 13 c || code_in 32 32 c || code_in 160 160 c.

Fixpoint trimStart (s : string) : string :=
  match s with
  | EmptyString => EmptyString
  | String c s' => if space_char c then trimStart s' else s
  end.

Fixpoint trimEnd (s : string) : string :=
  match s with
  | EmptyString => EmptyString
  | String c s' =>
      match trimEnd s' with
      | EmptyString => if space_char c then EmptyString else String c EmptyString
      | t => String c t
      end
  end.

Definition trim (s : string) : string := trimEnd (trimStart s).

Definition min_length_issues (n : nat) (message : string) (s : string) :
    list string :=
  if (String.length s <? n)%nat then [message] else [].

Definition regex_issues (test : string → bool) (message : string)
    (s : string) : list string :=
  if test s then [] else [message].

Definition entityIdSchema (input : string) : ParseResult string :=
  match
    min_length_issues 1 "ID cannot be empty" input ++
    regex_issues id_regex_test
      "ID must contain only lowercase letters, numbers, underscores, and hyphens"
      input
  with
  | [] => ParseOk (trim (toLowerCase input))
  | issues => ParseError issues
  end.

(** The identifier rule in the words of the specification: the input is
    first normalized (lowercase, trimmed) and accepted when the normalized
    form is non-empty and within [[a-z0-9_-]+]. *)
Definition spec_normalize (input : string) : string :=
  trim (toLowerCase input).

Definition spec_identifier_accepts (input : string) : bool :=
  id_regex_test (spec_normalize input).

(** ** The admin hook: [runQualityCheck] and the quality score *)

(** Modelled from the spec: the types [Project], [Skill] and [Experience]
    of [@/types] are imported by the hook but not part of the sources; the
    records keep the fields the specification lists for the admin shapes
    ([AdminProject {id, title, featured, updatedAt}], [AdminSkill {id, name}]). *)
Record AdminProject := {
  admin_project_id : string;
  admin_project_title : string;
  admin_project_featured : bool;
  admin_project_updatedAt : option Z;
}.

Record AdminSkill := {
  admin_skill_id : string;
  admin_skill_name : string;
}.

Record AdminExperience := {
  admin_experience_id : string;
}.

(** A [Map<string, number>] in insertion order. *)
Abbreviation CountMap := (list (string * Z)).

Fixpoint Map_get (m : CountMap) (key : string) : option Z :=
  match m with
  | [] => None
  | (k, v) :: m' => if decide (k = key) then Some v else Map_get m' key
  end.

(** [Map.prototype.set]: an existing key keeps its place. *)
Fixpoint Map_set (m : CountMap) (key : string) (value : Z) : CountMap :=
  match m with
  | [] => [(key, value)]
  | (k, v) :: m' =>
      if decide (k = key) then (k, value) :: m'
      else (k, v) :: Map_set m' key value
  end.

(** [x || 0] for [x : number | undefined]. *)
Definition or_zero (x : option Z) : Z :=
  match x with
  | Some n => if decide (n = 0) then 0 else n
  | None => 0
  end.

(** [const count = m.get(key) || 0; m.set(key, count + 1)] *)
Definition count_key (m : CountMap) (key : string) : CountMap :=
  let count := or_zero (Map_get m key) in
  Map_set m key (count + 1).

(** Decimal rendering of an integer inside a template literal. *)
Definition number_to_string (n : Z) : string :=
  NilZero.string_of_int (Z.to_int n).

Definition duplicate_title_warning (title : string) (count : Z) :
    QualityWarning :=
  {| warn_type := UnusedEntity; warn_entity := "projects";
     warn_message := "Duplicate project title found: " +:+ dquote +:+ title
       +:+ dquote +:+ " (" +:+ number_to_string count +:+ " times)" |}.

Definition duplicate_name_warning (name : string) (count : Z) :
    QualityWarning :=
  {| warn_type := UnusedEntity; warn_entity := "skills";
     warn_message := "Duplicate skill name found: " +:+ dquote +:+ name
       +:+ dquote +:+ " (" +:+ number_to_string count +:+ " times)" |}.

(** [report.warnings.push(w); report.stats.duplicates++] *)
Definition warn_duplicate (w : QualityWarning) (r : DataQualityReport) :
    DataQualityReport :=
  {| isValid := isValid r; errors := errors r; warnings := warnings r ++ [w];
     stats := {| totalEntities := totalEntities (stats r);
                 duplicates := duplicates (stats r) + 1;
                 brokenReferences := brokenReferences (stats r);
                 unusedEntities := unusedEntities (stats r) |} |}.

(** The callback of the two [Map.prototype.forEach] loops. *)
Definition check_count (mkwarning : string → Z → QualityWarning)
    (report : DataQualityReport) (entry : string * Z) : DataQualityReport :=
  if decide (entry.2 > 1) then warn_duplicate (mkwarning entry.1 entry.2) report
  else report.

(** The report that [runQualityCheck] hands to [setQualityReport]. *)
Definition runQualityCheck (projects : list AdminProject)
    (skills : list AdminSkill) (experiences : list AdminExperience) :
    DataQualityReport :=
  let report :=
    {| isValid := true; errors := []; warnings := [];
       stats := {| totalEntities :=
                     Z.of_nat (length projects) + Z.of_nat (length skills)
                     + Z.of_nat (length experiences);
                   duplicates := 0; brokenReferences := 0;
                   unusedEntities := 0 |} |} in
  (* Check for duplicate titles in projects *)
  let projectTitles : CountMap :=
    foldl (λ m project, count_key m (admin_project_title project)) [] projects in
  let report := foldl (check_count duplicate_title_warning) report projectTitles in
  (* Check for duplicate skill names *)
  let skillNames : CountMap :=
    foldl (λ m skill, count_key m (admin_skill_name skill)) [] skills in
  foldl (check_count duplicate_name_warning) report skillNames.

(** The [qualityScore] computed inside [stats]; [qualityReport] is the
    state variable, [null] before the first check. *)
Definition qualityScore (qualityReport : option DataQualityReport) : Z :=
  let qualityScore := 100 in
  match qualityReport with
  | Some qualityReport =>
      let qualityScore := qualityScore - duplicates (stats qualityReport) * 10 in
      let qualityScore :=
        qualityScore - brokenReferences (stats qualityReport) * 15 in
      let qualityScore :=
        qualityScore - unusedEntities (stats qualityReport) * 2 in
      Z.max 0 (Z.min 100 qualityScore)
  | None => qualityScore
  end.

(** The clamp of the specification's formula. *)
Definition clamp (x lo hi : Z) : Z :=
  if decide (x < lo) then lo else if decide (hi < x) then hi else x.

(** ** Declarative readings used in the statements *)

(** Number of times [id] occurs in a list of ids. *)
Definition occurrences (id : string) (ids : list string) : nat :=
  length (filter (λ x, x = id) ids).

(** Occurrences beyond the first, summed over the distinct ids. *)
Definition extra_occurrences (ids : list string) : nat :=
  sum_list ((λ id, occurrences id ids - 1)%nat <$> remove_dups ids).

(** The five collections in the order [validateDataQuality] visits them,
    each with the name it is reported under and its raw list of ids. *)
Definition collection_ids (data : PortfolioData) : list (string * list string) :=
  [ ("companies", company_id <$> companies (entities data));
    ("technologies", tech_id <$> technologies (entities data));
    ("modules", module_id <$> modules (entities data));
    ("projects", project_id <$> projects data);
    ("integrations", integration_id <$> integrations data) ].

(** Number of [duplicate] errors of a report for one id of one collection. *)
Definition duplicate_errors_for (entityType id : string)
    (r : DataQualityReport) : nat :=
  length (filter (λ e, err_type e = Duplicate ∧ err_entity e = entityType
                       ∧ err_value e = Some id) (errors r)).

(** The references of a list that name no element of [known]. *)
Definition missing (known refs : list string) : list string :=
  filter (λ x, x ∉ known) refs.

(** One error per broken reference of a project, field by field. *)
Definition project_broken_references (companyIds techIds moduleIds : list string)
    (project : DataProject) : list QualityError :=
  (project_reference_error "partners" "company" project <$>
     missing companyIds (project_partners project)) ++
  (project_reference_error "technologies" "technology" project <$>
     missing techIds (project_technologies project)) ++
  (project_reference_error "modules" "module" project <$>
     missing moduleIds (project_modules project)).

(** An end point of an integration is broken unless it is the literal
    ["system"], a technology id or a module id. *)
Definition endpoint_broken (techIds moduleIds : list string) (refId : string) :
    Prop :=
  refId ≠ "system" ∧ (refId ∉ techIds) ∧ (refId ∉ moduleIds).

#[global] Instance endpoint_broken_dec techIds moduleIds refId :
  Decision (endpoint_broken techIds moduleIds refId).
Proof. unfold endpoint_broken. apply _. Defined.

Definition endpoint_broken_reference (techIds moduleIds : list string)
    (integration : Integration) (refId field : string) : list QualityError :=
  if decide (endpoint_broken techIds moduleIds refId)
  then [integration_reference_error field "entity" integration refId]
  else [].

(** One error per broken reference of an integration. *)
Definition integration_broken_references (techIds moduleIds projectIds : list string)
    (integration : Integration) : list QualityError :=
  endpoint_broken_reference techIds moduleIds integration
    (integration_source integration) "source" ++
  endpoint_broken_reference techIds moduleIds integration
    (integration_target integration) "target" ++
  (integration_reference_error "projects" "project" integration <$>
     missing projectIds (integration_projects integration)).

(** All broken references of a snapshot, against the raw collections. *)
Definition broken_reference_errors (data : PortfolioData) : list QualityError :=
  let companyIds := company_id <$> companies (entities data) in
  let techIds := tech_id <$> technologies (entities data) in
  let moduleIds := module_id <$> modules (entities data) in
  let projectIds := project_id <$> projects data in
  (projects data ≫= project_broken_references companyIds techIds moduleIds) ++
  (integrations data ≫=
     integration_broken_references techIds moduleIds projectIds).

(** A company is unused when it is active and no project lists its id among
    its partners. *)
Definition company_unused (data : PortfolioData) (company : Company) : Prop :=
  company_status company = CompanyActive
  ∧ ¬ Exists (λ project, company_id company ∈ project_partners project)
        (projects data).

#[global] Instance company_unused_dec data company :
  Decision (company_unused data company).
Proof. unfold company_unused. apply _. Defined.

(** The ids that repeat an id of [seen] or an earlier id of the list. *)
Fixpoint repeated_from (seen : gset string) (ids : list string) : list string :=
  match ids with
  | [] => []
  | id :: rest =>
      if decide (id ∈ seen) then id :: repeated_from ({[id]} ∪ seen) rest
      else repeated_from ({[id]} ∪ seen) rest
  end.

(** Several findings of one kind added to a report at once. *)
Definition with_duplicates (es : list QualityError) (r : DataQualityReport) :
    DataQualityReport :=
  {| isValid := isValid r && bool_decide (es = []);
     errors := errors r ++ es; warnings := warnings r;
     stats := {| totalEntities := totalEntities (stats r);
                 duplicates := duplicates (stats r) + Z.of_nat (length es);
                 brokenReferences := brokenReferences (stats r);
                 unusedEntities := unusedEntities (stats r) |} |}.

Definition with_broken (es : list QualityError) (r : DataQualityReport) :
    DataQualityReport :=
  {| isValid := isValid r && bool_decide (es = []);
     errors := errors r ++ es; warnings := warnings r;
     stats := {| totalEntities := totalEntities (stats r);
                 duplicates := duplicates (stats r);
                 brokenReferences :=
                   brokenReferences (stats r) + Z.of_nat (length es);
                 unusedEntities := unusedEntities (stats r) |} |}.

Definition with_unused (ws : list QualityWarning) (r : DataQualityReport) :
    DataQualityReport :=
  {| isValid := isValid r; errors := errors r; warnings := warnings r ++ ws;
     stats := {| totalEntities := totalEntities (stats r);
                 duplicates := duplicates (stats r);
                 brokenReferences := brokenReferences (stats r);
                 unusedEntities :=
                   unusedEntities (stats r) + Z.of_nat (length ws) |} |}.

(** The [duplicate] errors of the first pass, collection after collection. *)
Definition duplicate_errors (data : PortfolioData) : list QualityError :=
  collection_ids data ≫=
    λ c, duplicate_error c.1 <$> repeated_from ∅ c.2.

(** The warnings of the third pass. *)
Definition unused_warnings (data : PortfolioData) : list QualityWarning :=
  (unused_technology_warning <$>
     filter (λ t, tech_id t ∉ usedTechIds (collectUsedIds data))
       (technologies (entities data))) ++
  (unused_module_warning <$>
     filter (λ m, module_id m ∉ usedModuleIds (collectUsedIds data))
       (modules (entities data))) ++
  (unused_company_warning <$>
     filter (company_unused data) (companies (entities data))).

(** Several duplicate-title or duplicate-name warnings of the admin check
    added at once. *)
Definition with_duplicate_warnings (ws : list QualityWarning)
    (r : DataQualityReport) : DataQualityReport :=
  {| isValid := isValid r; errors := errors r; warnings := warnings r ++ ws;
     stats := {| totalEntities := totalEntities (stats r);
                 duplicates := duplicates (stats r) + Z.of_nat (length ws);
                 brokenReferences := brokenReferences (stats r);
                 unusedEntities := unusedEntities (stats r) |} |}.

(** The counts a [Map] holds after counting the keys of a list: one entry
    per key of [order], with the number of its occurrences. *)
Definition counted (keys order : list string) : CountMap :=
  (λ k, (k, Z.of_nat (occurrences k keys))) <$> order.

(** ** [generateQualityReportString] *)

(** The line feed of the templates. *)
Definition newline : string := String (ascii_of_nat 10) EmptyString.

(** The string values of the two unions of literal types. *)
Definition error_type_string (t : ErrorType) : string :=
  match t with
  | Duplicate => "duplicate"
  | MissingReference => "missing_reference"
  | InvalidData => "invalid_data"
  | SchemaViolation => "schema_violation"
  end.

Definition warning_type_string (t : WarningType) : string :=
  match t with
  | UnusedEntity => "unused_entity"
  | CircularReference => "circular_reference"
  | Deprecated => "deprecated"
  end.

(** [error.field ? `.${error.field}` : ''] : an absent and an empty field
    are both falsy. *)
Definition field_suffix (field : option string) : string :=
  match field with
  | Some f => if decide (f = EmptyString) then EmptyString else "." +:+ f
  | None => EmptyString
  end.

(** The callbacks of the two [forEach] loops, which receive the index. *)
Definition error_line (i : nat) (error : QualityError) : string :=
  "  " +:+ number_to_string (Z.of_nat i + 1) +:+ ". ["
    +:+ error_type_string (err_type error) +:+ "] " +:+ err_entity error
    +:+ field_suffix (err_field error) +:+ ": " +:+ err_message error.

Definition warning_line (i : nat) (warning : QualityWarning) : string :=
  "  " +:+ number_to_string (Z.of_nat i + 1) +:+ ". ["
    +:+ warning_type_string (warn_type warning) +:+ "] "
    +:+ warn_entity warning +:+ ": " +:+ warn_message warning.

Definition status_line (valid : bool) : string :=
  "Status: " +:+ (if valid then "✅ PASSED" else "❌ FAILED") +:+ newline.

Definition passed_line : string :=
  newline +:+ "✅ All validation checks passed!".

(** The array [lines] at the end of the function. Characters outside ASCII
    stand in the literals as their UTF-8 bytes; the function only
    concatenates them. *)
Definition qualityReportLines (report : DataQualityReport) : list string :=
  let lines :=
    [ "=== Data Quality Report ===" +:+ newline;
      status_line (isValid report);
      newline +:+ "Statistics:";
      "  Total Entities: " +:+ number_to_string (totalEntities (stats report));
      "  Duplicates: " +:+ number_to_string (duplicates (stats report));
      "  Broken References: "
        +:+ number_to_string (brokenReferences (stats report));
      "  Unused Entities: "
        +:+ number_to_string (unusedEntities (stats report)) ] in
  let lines :=
    if decide (0 < length (errors report))%nat
    then lines ++
         [newline +:+ "❌ Errors ("
            +:+ number_to_string (Z.of_nat (length (errors report))) +:+ "):"] ++
         imap error_line (errors report)
    else lines in
  let lines :=
    if decide (0 < length (warnings report))%nat
    then lines ++
         [newline +:+ "⚠️  Warnings ("
            +:+ number_to_string (Z.of_nat (length (warnings report))) +:+ "):"] ++
         imap warning_line (warnings report)
    else lines in
  if decide (isValid report = true ∧ length (errors report) = 0%nat)
  then lines ++ [passed_line]
  else lines.

Definition generateQualityReportString (report : DataQualityReport) : string :=
  String.concat newline (qualityReportLines report).

(** ** The admin hook: the derived values [featuredProjects] and [stats] *)

Record DataStats := {
  totalProjects : Z;
  totalSkills : Z;
  totalExperiences : Z;
  featuredProjectsCount : Z;
  recentlyUpdated : Z;
  dataQualityScore : Z;
}.

(** [projects.filter(p => p.featured)] *)
Definition featuredProjects (projects : list AdminProject) : list AdminProject :=
  filter (λ p, admin_project_featured p = true) projects.

(** [p.updatedAt && p.updatedAt > last30Days]: an absent time stamp and the
    time stamp 0 are falsy. *)
Definition updated_since (last30Days : Z) (p : AdminProject) : Prop :=
  match admin_project_updatedAt p with
  | Some t => t ≠ 0 ∧ t > last30Days
  | None => False
  end.

#[global] Instance updated_since_dec last30Days p :
  Decision (updated_since last30Days p).
Proof. unfold updated_since. destruct (admin_project_updatedAt p); apply _. Defined.

(** The memo [stats]; [now] is the value of [Date.now()]. *)
Definition adminStats (now : Z) (projects : list AdminProject)
    (skills : list AdminSkill) (experiences : list AdminExperience)
    (qualityReport : option DataQualityReport) : DataStats :=
  let last30Days := now - 30 * 24 * 60 * 60 * 1000 in
  let recentlyUpdated :=
    Z.of_nat (length (filter (updated_since last30Days) projects)) in
  {| totalProjects := Z.of_nat (length projects);
     totalSkills := Z.of_nat (length skills);
     totalExperiences := Z.of_nat (length experiences);
     featuredProjectsCount := Z.of_nat (length (featuredProjects projects));
     recentlyUpdated := recentlyUpdated;
     dataQualityScore := qualityScore qualityReport |}.

(** ** The public hook [useProjects]: the subscription callback *)

(** Modelled from the spec: the type [Project] of [@/types/project] is not
    part of the sources; the record keeps the fields the hook reads. The
    optional [featured] and [disabled] are only read for their truthiness,
    so an absent flag is [false]; [priority] is absent when it is not a
    number, and integral otherwise. *)
Record Project := {
  title : string;
  description : string;
  category : string;
  featured : bool;
  disabled : bool;
  priority : option Z;
}.

(** Truthiness of a string. *)
Definition truthy (s : string) : Prop := s ≠ EmptyString.

(** [project.title && project.description && project.category] *)
Definition has_required_fields (project : Project) : Prop :=
  truthy (title project) ∧ truthy (description project)
  ∧ truthy (category project).

#[global] Instance has_required_fields_dec project :
  Decision (has_required_fields project).
Proof. unfold has_required_fields, truthy. apply _. Defined.

(** [s || ''] *)
Definition or_empty (s : string) : string :=
  if decide (s = EmptyString) then EmptyString else s.

(** The key of the deduplication: normalized title and category. *)
Definition project_key (p : Project) : string :=
  toLowerCase (trim (title p)) +:+ "::"
    +:+ toLowerCase (trim (or_empty (category p))).

(** The body of the [for ... of] loop; the state is [seen] and [deduped]. *)
Definition dedupe_step (st : gset string * list Project) (p : Project) :
    gset string * list Project :=
  let key := project_key p in
  if decide (key ∈ st.1) then st else ({[key]} ∪ st.1, st.2 ++ [p]).

(** The comparator handed to [sort]. *)
Definition priority_or_zero (p : Project) : Z :=
  match priority p with
  | Some n => n
  | None => 0
  end.

Definition compare_projects (a b : Project) : Z :=
  if decide (featured b ≠ featured a) then (if featured b then 1 else -1)
  else
    let pa := priority_or_zero a in
    let pb := priority_or_zero b in
    pb - pa.

(** [Array.prototype.sort] is stable, and with a comparator that orders the
    elements consistently, as [compare_projects] does, its result is the
    one stable arrangement in that order; insertion from the right computes
    it. *)
Fixpoint insert_sorted {A} (compare : A → A → Z) (x : A) (l : list A) : list A :=
  match l with
  | [] => [x]
  | y :: l' =>
      if decide (compare x y ≤ 0) then x :: y :: l'
      else y :: insert_sorted compare x l'
  end.

Definition sort {A} (compare : A → A → Z) (l : list A) : list A :=
  foldr (insert_sorted compare) [] l.

(** The list handed to [setProjects] for a list of updated projects. *)
Definition subscriptionProjects (updatedProjects : list Project) : list Project :=
  (* Validate and sanitize data *)
  let validProjects := filter has_required_fields updatedProjects in
  (* Deduplicate by normalized title + category *)
  let deduped := (foldl dedupe_step (∅, []) validProjects).2 in
  (* Sort: featured first, then by priority desc *)
  sort compare_projects deduped.

(** The memos [featured] and [others]. *)
Definition featured_projects (projects : list Project) : list Project :=
  filter (λ p, featured p = true ∧ disabled p = false) projects.

Definition other_projects (projects : list Project) : list Project :=
  filter (λ p, featured p = false ∧ disabled p = false) projects.

(** ** Further readings used in the statements *)

(** A technology id is in use when a project lists it among its
    technologies, or when it is the source or the target of an
    integration, the literal ["system"] apart. *)
Definition technology_used (data : PortfolioData) (id : string) : Prop :=
  Exists (λ project, id ∈ project_technologies project) (projects data)
  ∨ (id ≠ "system"
     ∧ Exists (λ i, id = integration_source i ∨ id = integration_target i)
         (integrations data)).

#[global] Instance technology_used_dec data id :
  Decision (technology_used data id).
Proof. unfold technology_used. apply _. Defined.

(** A module id is in use when a project lists it among its modules. *)
Definition module_used (data : PortfolioData) (id : string) : Prop :=
  Exists (λ project, id ∈ project_modules project) (projects data).

#[global] Instance module_used_dec data id : Decision (module_used data id).
Proof. unfold module_used. apply _. Defined.

(** The order the subscription callback establishes: featured projects
    first, and a higher priority first among projects of the same kind. *)
Definition comes_before (a b : Project) : Prop :=
  (featured b = true → featured a = true)
  ∧ (featured a = featured b → priority_or_zero b ≤ priority_or_zero a).

(** The deduplication rule in the words of the specification: of a
    collection, in collection order, the entity at a position is kept
    exactly when its id is not the id of an entity at an earlier position. *)
Definition spec_first_occurrences {T} `{HasId T} (entities : list T) : list T :=
  mjoin
    (imap (λ i entity,
             if decide (entity_id entity ∈ entity_id <$> take i entities)
             then [] else [entity])
       entities).

(** * Properties *)

(** ** The report as an accumulator *)

Lemma report_eq (r r' : DataQualityReport) :
  isValid r = isValid r' → errors r = errors r' → warnings r = warnings r' →
  totalEntities (stats r) = totalEntities (stats r') →
  duplicates (stats r) = duplicates (stats r') →
  brokenReferences (stats r) = brokenReferences (stats r') →
  unusedEntities (stats r) = unusedEntities (stats r') →
  r = r'.
Proof.
  destruct r as [v e w [n d b u]], r' as [v' e' w' [n' d' b' u']]; simpl.
  congruence.
Qed.

Lemma bool_decide_app_nil {A} `{EqDecision A} (l k : list A) :
  bool_decide (l ++ k = []) = bool_decide (l = []) && bool_decide (k = []).
Proof. destruct l, k; reflexivity. Qed.

Ltac report_fields :=
  apply report_eq; simpl;
  rewrite ?bool_decide_app_nil, ?length_app, ?Nat2Z.inj_add, ?app_nil_r,
    ?andb_true_r, ?andb_assoc, <- ?app_assoc;
  try reflexivity; try (cbn [length]; lia).

Lemma with_duplicates_nil r : with_duplicates [] r = r.
Proof. report_fields. Qed.

Lemma with_duplicates_app es es' r :
  with_duplicates (es ++ es') r = with_duplicates es' (with_duplicates es r).
Proof. report_fields. Qed.

Lemma with_broken_nil r : with_broken [] r = r.
Proof. report_fields. Qed.

Lemma with_broken_app es es' r :
  with_broken (es ++ es') r = with_broken es' (with_broken es r).
Proof. report_fields. Qed.

Lemma with_unused_nil r : with_unused [] r = r.
Proof. report_fields. Qed.

Lemma with_unused_app ws ws' r :
  with_unused (ws ++ ws') r = with_unused ws' (with_unused ws r).
Proof. report_fields. Qed.

Lemma report_duplicate_with e r : report_duplicate e r = with_duplicates [e] r.
Proof. report_fields. Qed.

Lemma report_broken_with e r : report_broken e r = with_broken [e] r.
Proof. report_fields. Qed.

Lemma report_unused_with w r : report_unused w r = with_unused [w] r.
Proof. report_fields. Qed.

(** A [forEach] whose callback adds findings of one kind adds the findings
    of all elements, in order. *)
Section fold_findings.
Context {A B : Type} (add : list B → DataQualityReport → DataQualityReport).
Hypothesis add_nil : ∀ r, add [] r = r.
Hypothesis add_app : ∀ bs bs' r, add (bs ++ bs') r = add bs' (add bs r).

Lemma foldl_findings (f : DataQualityReport → A → DataQualityReport)
    (g : A → list B) :
  (∀ r a, f r a = add (g a) r) →
  ∀ l r, foldl f r l = add (l ≫= g) r.
Proof.
  intros Hf l. induction l as [|a l IH]; intros r; simpl.
  - by rewrite add_nil.
  - rewrite IH, Hf. by rewrite add_app.
Qed.
End fold_findings.

Lemma bind_filter_fmap {A B} (P : A → Prop) `{∀ x, Decision (P x)}
    (f : A → B) (l : list A) :
  l ≫= (λ x, if decide (P x) then [f x] else []) = f <$> filter P l.
Proof.
  induction l as [|x l IH]; [done|].
  rewrite bind_cons, filter_cons, IH. by destruct (decide (P x)).
Qed.

Lemma missing_list_to_set (known refs : list string) :
  filter (λ x, x ∉ (list_to_set known : gset string)) refs = missing known refs.
Proof.
  unfold missing. apply list_filter_iff. intros x.
  by rewrite elem_of_list_to_set.
Qed.

(** ** Pass 1 *)

Section checkDuplicates_facts.
Context {T : Type} `{HasId T}.
Implicit Types (entities : list T) (seen : gset string).

Lemma checkDuplicates_fold entityType entities seen r :
  foldl (checkDuplicates_step entityType) (seen, r) entities =
  (list_to_set (entity_id <$> entities) ∪ seen,
   with_duplicates
     (duplicate_error entityType <$> repeated_from seen (entity_id <$> entities))
     r).
Proof.
  revert seen r. induction entities as [|e l IH]; intros seen r; simpl.
  - rewrite with_duplicates_nil. f_equal. set_solver.
  - unfold checkDuplicates_step at 2. simpl. rewrite IH.
    f_equal; [set_solver|].
    destruct (decide (entity_id e ∈ seen)); [|done].
    by rewrite report_duplicate_with, fmap_cons, <- with_duplicates_app.
Qed.

Lemma checkDuplicates_eq entityType entities r :
  checkDuplicates entities entityType r =
  add_totalEntities (Z.of_nat (length entities))
    (with_duplicates
       (duplicate_error entityType <$> repeated_from ∅ (entity_id <$> entities))
       r).
Proof. unfold checkDuplicates. by rewrite checkDuplicates_fold. Qed.
End checkDuplicates_facts.

(** ** Pass 2 *)

Lemma check_project_refs known field kind project refs r :
  foldl (check_project_ref (list_to_set known) field kind project) r refs =
  with_broken (project_reference_error field kind project <$> missing known refs) r.
Proof.
  rewrite <- missing_list_to_set, <- bind_filter_fmap.
  apply (foldl_findings with_broken with_broken_nil with_broken_app).
  intros r' x. unfold check_project_ref.
  destruct (decide (x ∈ _)), (decide (x ∉ _)); try done.
  - by rewrite with_broken_nil.
  - apply report_broken_with.
Qed.

Lemma validate_project_eq companyIds techIds moduleIds r project :
  validate_project (list_to_set companyIds) (list_to_set techIds)
    (list_to_set moduleIds) r project =
  with_broken (project_broken_references companyIds techIds moduleIds project) r.
Proof.
  unfold validate_project, project_broken_references.
  by rewrite !check_project_refs, !with_broken_app.
Qed.

Lemma validateRef_eq techIds moduleIds integration refId field r :
  validateRef (list_to_set techIds) (list_to_set moduleIds) integration
    refId field r =
  with_broken
    (endpoint_broken_reference techIds moduleIds integration refId field) r.
Proof.
  unfold validateRef, endpoint_broken_reference, endpoint_broken.
  destruct (decide _) as [Hb|Hb], (decide _) as [Hb'|Hb'];
    rewrite !elem_of_list_to_set in Hb; try tauto.
  - apply report_broken_with.
  - by rewrite with_broken_nil.
Qed.

Lemma check_integration_projects projectIds integration refs r :
  foldl (check_integration_project (list_to_set projectIds) integration) r refs =
  with_broken
    (integration_reference_error "projects" "project" integration <$>
       missing projectIds refs) r.
Proof.
  rewrite <- missing_list_to_set, <- bind_filter_fmap.
  apply (foldl_findings with_broken with_broken_nil with_broken_app).
  intros r' x. unfold check_integration_project.
  destruct (decide (x ∈ _)), (decide (x ∉ _)); try done.
  - by rewrite with_broken_nil.
  - apply report_broken_with.
Qed.

Lemma validate_integration_eq techIds moduleIds projectIds r integration :
  validate_integration (list_to_set techIds) (list_to_set moduleIds)
    (list_to_set projectIds) r integration =
  with_broken
    (integration_broken_references techIds moduleIds projectIds integration) r.
Proof.
  unfold validate_integration, integration_broken_references.
  by rewrite !validateRef_eq, check_integration_projects, !with_broken_app.
Qed.

(** ** Pass 3 *)

Lemma add_all_eq ids s : add_all ids s = list_to_set ids ∪ s.
Proof.
  unfold add_all. revert s.
  induction ids as [|id ids IH]; intros s; simpl; [set_solver|].
  rewrite IH. set_solver.
Qed.

Lemma collect_projects_companies projects0 used :
  usedCompanyIds (foldl collect_project used projects0) =
  list_to_set (projects0 ≫= project_partners) ∪ usedCompanyIds used.
Proof.
  revert used. induction projects0 as [|p l IH]; intros used; simpl.
  - set_solver.
  - rewrite IH. simpl. rewrite add_all_eq, list_to_set_app_L. set_solver.
Qed.

Lemma collect_integrations_companies integrations0 used :
  usedCompanyIds (foldl collect_integration used integrations0) =
  usedCompanyIds used.
Proof.
  revert used. induction integrations0 as [|i l IH]; intros used; simpl; [done|].
  by rewrite IH.
Qed.

Lemma usedCompanyIds_spec data id :
  id ∈ usedCompanyIds (collectUsedIds data) ↔
  Exists (λ project, id ∈ project_partners project) (projects data).
Proof.
  unfold collectUsedIds.
  rewrite collect_integrations_companies, collect_projects_companies. simpl.
  rewrite elem_of_union, elem_of_list_to_set, list_elem_of_bind, Exists_exists.
  set_solver.
Qed.

Lemma check_technologies_used used techs r :
  foldl (check_technology_used used) r techs =
  with_unused
    (unused_technology_warning <$> filter (λ t, tech_id t ∉ used) techs) r.
Proof.
  rewrite <- bind_filter_fmap.
  apply (foldl_findings with_unused with_unused_nil with_unused_app).
  intros r' t. unfold check_technology_used.
  destruct (decide (_ ∈ _)), (decide (_ ∉ _)); try done.
  by rewrite with_unused_nil.
Qed.

Lemma check_modules_used used mods r :
  foldl (check_module_used used) r mods =
  with_unused
    (unused_module_warning <$> filter (λ m, module_id m ∉ used) mods) r.
Proof.
  rewrite <- bind_filter_fmap.
  apply (foldl_findings with_unused with_unused_nil with_unused_app).
  intros r' m. unfold check_module_used.
  destruct (decide (_ ∈ _)), (decide (_ ∉ _)); try done.
  by rewrite with_unused_nil.
Qed.

(** The callback of the company loop, at any company and any report: a
    warning is pushed exactly for an unused company. *)
Lemma check_company_used_eq data r company :
  check_company_used (usedCompanyIds (collectUsedIds data)) r company =
  if decide (company_unused data company)
  then report_unused (unused_company_warning company) r
  else r.
Proof.
  unfold check_company_used, company_unused.
  destruct (decide _) as [Hu|Hu], (decide _) as [Hu'|Hu']; try done;
    rewrite usedCompanyIds_spec in Hu; tauto.
Qed.

Lemma check_companies_used data cs r :
  foldl (check_company_used (usedCompanyIds (collectUsedIds data))) r cs =
  with_unused (unused_company_warning <$> filter (company_unused data) cs) r.
Proof.
  rewrite <- bind_filter_fmap.
  apply (foldl_findings with_unused with_unused_nil with_unused_app).
  intros r' c. rewrite check_company_used_eq.
  destruct (decide _); [done|]. by rewrite with_unused_nil.
Qed.

(** ** The report of [validateDataQuality], field by field *)

Lemma validateDataQuality_eq data :
  validateDataQuality data =
  {| isValid :=
       bool_decide (duplicate_errors data ++ broken_reference_errors data = []);
     errors := duplicate_errors data ++ broken_reference_errors data;
     warnings := unused_warnings data;
     stats :=
       {| totalEntities :=
            Z.of_nat (length (companies (entities data)))
            + Z.of_nat (length (technologies (entities data)))
            + Z.of_nat (length (modules (entities data)))
            + Z.of_nat (length (projects data))
            + Z.of_nat (length (integrations data));
          duplicates := Z.of_nat (length (duplicate_errors data));
          brokenReferences := Z.of_nat (length (broken_reference_errors data));
          unusedEntities := Z.of_nat (length (unused_warnings data)) |} |}.
Proof.
  unfold validateDataQuality.
  rewrite check_companies_used, check_modules_used, check_technologies_used.
  rewrite (foldl_findings with_broken with_broken_nil with_broken_app _ _
             (validate_integration_eq _ _ _)).
  rewrite (foldl_findings with_broken with_broken_nil with_broken_app _ _
             (validate_project_eq _ _ _)).
  rewrite !checkDuplicates_eq.
  unfold duplicate_errors, broken_reference_errors, unused_warnings,
    collection_ids.
  rewrite !bind_cons. simpl.
  unfold entity_id, Company_HasId, Technology_HasId, ModuleEntity_HasId,
    DataProject_HasId, Integration_HasId.
  report_fields.
Qed.

(** ** Counting occurrences *)

Lemma occurrences_cons id x ids :
  occurrences id (x :: ids) =
  if decide (x = id) then S (occurrences id ids) else occurrences id ids.
Proof. unfold occurrences. rewrite filter_cons. by destruct (decide (x = id)). Qed.

(** An id is repeated once per occurrence, except for its first occurrence
    when it is not among the ids seen before. *)
Lemma occurrences_repeated_from seen ids id :
  occurrences id (repeated_from seen ids) =
  if decide (id ∈ seen) then occurrences id ids
  else (occurrences id ids - 1)%nat.
Proof.
  revert seen. induction ids as [|x ids IH]; intros seen; simpl.
  - by destruct (decide (id ∈ seen)).
  - rewrite (occurrences_cons id x ids).
    destruct (decide (x ∈ seen)) as [Hx|Hx];
      rewrite ?occurrences_cons, IH;
      destruct (decide (x = id)) as [->|Hne];
      destruct (decide (id ∈ seen)), (decide (id ∈ {[_]} ∪ seen));
      try lia; set_solver.
Qed.

Lemma repeated_from_subseteq seen ids : repeated_from seen ids ⊆ ids.
Proof.
  revert seen. induction ids as [|x ids IH]; intros seen; simpl; [done|].
  destruct (decide (x ∈ seen)).
  - intros y. rewrite !elem_of_cons. intros [->|Hy]; [by left|].
    right. by eapply IH.
  - intros y Hy. apply elem_of_cons. right. by eapply IH.
Qed.

Lemma length_filter_split {A} (P : A → Prop) `{∀ x, Decision (P x)} (l : list A) :
  length l = (length (filter P l) + length (filter (λ x, ¬ P x) l))%nat.
Proof.
  induction l as [|x l IH]; [done|].
  rewrite !filter_cons. destruct (decide (P x)), (decide (¬ P x)); simpl; try done; lia.
Qed.

Lemma occurrences_filter_ne id x ids :
  id ≠ x → occurrences id (filter (λ y, ¬ y = x) ids) = occurrences id ids.
Proof.
  intros Hne. unfold occurrences. induction ids as [|y ids IH]; [done|].
  rewrite !filter_cons.
  destruct (decide (¬ y = x)), (decide (y = id)); simplify_eq; simpl;
    rewrite ?filter_cons; try (destruct (decide _)); simpl; try done; 
    by rewrite IH.
Qed.

(** A list whose values lie in a duplicate-free list is as long as the
    occurrences of those values add up to. *)
Lemma length_sum_occurrences (d ids : list string) :
  NoDup d → ids ⊆ d →
  length ids = sum_list ((λ id, occurrences id ids) <$> d).
Proof.
  intros Hd. revert ids. induction Hd as [|x d Hx Hd IH]; intros ids Hsub.
  - destruct ids as [|y ?]; [done|]. specialize (Hsub y). set_solver.
  - rewrite fmap_cons. simpl.
    rewrite (length_filter_split (λ y, y = x) ids). fold (occurrences x ids).
    f_equal. rewrite (IH (filter (λ y, ¬ y = x) ids)).
    + f_equal. apply Forall_fmap_ext, Forall_forall. intros y Hy.
      apply occurrences_filter_ne. set_solver.
    + intros y. rewrite list_elem_of_filter. intros [Hy Hin].
      apply Hsub, elem_of_cons in Hin. naive_solver.
Qed.

Lemma length_repeated_from ids :
  length (repeated_from ∅ ids) = extra_occurrences ids.
Proof.
  unfold extra_occurrences.
  rewrite (length_sum_occurrences (remove_dups ids)).
  - f_equal. apply Forall_fmap_ext, Forall_forall. intros id _.
    rewrite occurrences_repeated_from. by destruct (decide (id ∈ ∅)).
  - apply NoDup_remove_dups.
  - intros id Hid. apply elem_of_remove_dups.
    by eapply repeated_from_subseteq.
Qed.

(** ** The errors of a report, by kind *)

Lemma project_broken_references_type cs ts ms project :
  Forall (λ e, err_type e = MissingReference)
    (project_broken_references cs ts ms project).
Proof.
  unfold project_broken_references.
  rewrite !Forall_app, !Forall_fmap. repeat split; by apply Forall_true.
Qed.

Lemma integration_broken_references_type ts ms ps integration :
  Forall (λ e, err_type e = MissingReference)
    (integration_broken_references ts ms ps integration).
Proof.
  unfold integration_broken_references, endpoint_broken_reference.
  rewrite !Forall_app, !Forall_fmap.
  repeat split; try (by apply Forall_true);
    destruct (decide _); by repeat constructor.
Qed.

Lemma broken_reference_errors_type data :
  Forall (λ e, err_type e = MissingReference) (broken_reference_errors data).
Proof.
  unfold broken_reference_errors. rewrite Forall_app. split.
  - apply Forall_bind, Forall_true. intros p.
    apply project_broken_references_type.
  - apply Forall_bind, Forall_true. intros i.
    apply integration_broken_references_type.
Qed.

Lemma duplicate_errors_type data :
  Forall (λ e, err_type e = Duplicate) (duplicate_errors data).
Proof.
  unfold duplicate_errors. apply Forall_bind, Forall_true. intros c.
  simpl. rewrite Forall_fmap. by apply Forall_true.
Qed.

Lemma filter_nil_Forall {A} (P : A → Prop) `{∀ x, Decision (P x)} (l : list A) :
  Forall (λ x, ¬ P x) l → filter P l = [].
Proof.
  induction 1 as [|x l Hx _ IH]; [done|].
  rewrite filter_cons. by destruct (decide (P x)).
Qed.

Lemma filter_all_Forall {A} (P : A → Prop) `{∀ x, Decision (P x)} (l : list A) :
  Forall P l → filter P l = l.
Proof.
  induction 1 as [|x l Hx _ IH]; [done|].
  rewrite filter_cons, IH. by destruct (decide (P x)).
Qed.

(** The [duplicate] errors of one collection that name the id, among the
    errors reported under a collection name. *)
Lemma length_filter_duplicate_error entityType id name ids :
  length (filter (λ e, err_type e = Duplicate ∧ err_entity e = entityType
                       ∧ err_value e = Some id)
            (duplicate_error name <$> ids)) =
  if decide (name = entityType) then occurrences id ids else 0%nat.
Proof.
  induction ids as [|x ids IH].
  - by destruct (decide _).
  - rewrite fmap_cons, filter_cons, occurrences_cons.
    cbn [duplicate_error err_type err_entity err_value].
    destruct (decide (_ ∧ _)) as [Hd|Hd]; cbn [length]; rewrite IH;
      destruct (decide (name = entityType)), (decide (x = id));
      try done; naive_solver.
Qed.

(** ** Duplicate detection *)

Lemma length_filter_duplicate_errors entityType id
    (cs : list (string * list string)) :
  length (filter (λ e, err_type e = Duplicate ∧ err_entity e = entityType
                       ∧ err_value e = Some id)
            (cs ≫= λ c, duplicate_error c.1 <$> repeated_from ∅ c.2)) =
  sum_list ((λ c, if decide (c.1 = entityType)
                  then (occurrences id c.2 - 1)%nat else 0%nat) <$> cs).
Proof.
  induction cs as [|c cs IH]; [done|].
  rewrite bind_cons, filter_app, length_app, fmap_cons, IH.
  rewrite length_filter_duplicate_error, occurrences_repeated_from.
  reflexivity.
Qed.

Lemma length_duplicate_errors (cs : list (string * list string)) :
  length (cs ≫= λ c, duplicate_error c.1 <$> repeated_from ∅ c.2) =
  sum_list (extra_occurrences <$> (snd <$> cs)).
Proof.
  induction cs as [|c cs IH]; [done|].
  rewrite bind_cons, length_app, !fmap_cons, length_fmap, IH.
  by rewrite length_repeated_from.
Qed.

(** C1. In each of the five collections, the report holds, for every id,
    as many [duplicate] errors under the collection's name as the id has
    occurrences beyond its first (k-1 for an id occurring k>1 times, none
    for an id occurring once); the callback of [checkDuplicates], run on an
    entity after the entities before it, reports the entity exactly when its
    id is the id of an earlier entity, so a first occurrence leaves the
    report as it was; and [stats.duplicates] is the number of occurrences
    beyond the first, added up over the ids of the five collections. *)
Theorem C1_duplicate_detection (data : PortfolioData) :
  let r := validateDataQuality data in
  Forall (λ c, ∀ id,
            duplicate_errors_for c.1 id r = (occurrences id c.2 - 1)%nat)
    (collection_ids data)
  ∧ (∀ T (I : HasId T) (entityType : string) (earlier : list T) (entity : T)
       (r0 : DataQualityReport),
       let st := foldl (checkDuplicates_step entityType) (∅, r0) earlier in
       (checkDuplicates_step entityType st entity).2 =
       if decide (entity_id entity ∈ entity_id <$> earlier)
       then report_duplicate
              (duplicate_error entityType (entity_id entity)) st.2
       else st.2)
  ∧ duplicates (stats r) =
    Z.of_nat (sum_list (extra_occurrences <$> (snd <$> collection_ids data))).
Proof.
  intros r. subst r. rewrite validateDataQuality_eq. split; [|split].
  - assert (Hcount : ∀ entityType id,
      length (filter (λ e, err_type e = Duplicate ∧ err_entity e = entityType
                           ∧ err_value e = Some id)
                (duplicate_errors data ++ broken_reference_errors data)) =
      sum_list ((λ c, if decide (c.1 = entityType)
                      then (occurrences id c.2 - 1)%nat else 0%nat)
                  <$> collection_ids data)).
    { intros entityType id. rewrite filter_app, length_app.
      rewrite (filter_nil_Forall _ (broken_reference_errors data)).
      - rewrite Nat.add_0_r. apply length_filter_duplicate_errors.
      - eapply Forall_impl; [apply broken_reference_errors_type|].
        simpl. intros e He [Hd _]. congruence. }
    unfold duplicate_errors_for, collection_ids. simpl errors.
    repeat constructor; intros id; rewrite Hcount; simpl;
      repeat (destruct (decide _); try discriminate); lia.
  - intros T I entityType earlier entity r0. simpl.
    rewrite checkDuplicates_fold. unfold checkDuplicates_step. simpl.
    destruct (decide _) as [Hin|Hin], (decide _) as [Hin'|Hin']; try done;
      set_solver.
  - cbn [stats duplicates]. f_equal. apply length_duplicate_errors.
Qed.

(** ** Reference integrity *)

(** C2. The [missing_reference] errors of the report are, in order, one
    error per broken reference: for each project one per element of
    [partners], [technologies] and [modules] that is not an id of the raw
    companies, technologies and modules collection; for each integration one
    for [source] and one for [target] unless it is ["system"], a technology
    id or a module id, and one per element of [projects] that is not a
    project id; [stats.brokenReferences] is the number of these errors. *)
Theorem C2_reference_integrity (data : PortfolioData) :
  let r := validateDataQuality data in
  filter (λ e, err_type e = MissingReference) (errors r) =
    broken_reference_errors data
  ∧ brokenReferences (stats r) =
    Z.of_nat (length (filter (λ e, err_type e = MissingReference) (errors r))).
Proof.
  intros r.
  assert (Hf : filter (λ e, err_type e = MissingReference) (errors r) =
               broken_reference_errors data).
  { subst r. rewrite validateDataQuality_eq. simpl. rewrite filter_app.
    rewrite (filter_nil_Forall _ (duplicate_errors data)).
    - apply filter_all_Forall, broken_reference_errors_type.
    - eapply Forall_impl; [apply duplicate_errors_type|].
      simpl. intros e He. congruence. }
  split; [done|]. rewrite Hf. subst r. by rewrite validateDataQuality_eq.
Qed.

(** ** Validity flag *)

(** C3. The report is valid exactly when it has no error, whatever its
    warnings: every error is a duplicate or a missing reference, every
    warning is an unused-entity finding, and a report can be valid while
    holding warnings. *)
Theorem C3_validity_flag (data : PortfolioData) :
  let r := validateDataQuality data in
  isValid r = bool_decide (length (errors r) = 0%nat)
  ∧ Forall (λ e, err_type e = Duplicate ∨ err_type e = MissingReference)
      (errors r)
  ∧ Forall (λ w, warn_type w = UnusedEntity) (warnings r)
  ∧ ∃ data', isValid (validateDataQuality data') = true
             ∧ warnings (validateDataQuality data') ≠ [].
Proof.
  intros r. subst r. rewrite validateDataQuality_eq. simpl.
  split; [|split; [|split]].
  - apply bool_decide_ext. by rewrite length_zero_iff_nil.
  - rewrite Forall_app. split.
    + eapply Forall_impl; [apply duplicate_errors_type|]. by left.
    + eapply Forall_impl; [apply broken_reference_errors_type|]. by right.
  - unfold unused_warnings. rewrite !Forall_app, !Forall_fmap.
    repeat split; by apply Forall_true.
  - exists
      {| projectMetadata :=
           {| meta_name := "n"; meta_version := "1"; meta_lastUpdated := "d";
              meta_description := "x" |};
         entities :=
           {| companies := [];
              technologies :=
                [{| tech_id := "react"; tech_name := "React";
                    tech_category := "frontend"; tech_subcategory := None |}];
              modules := [] |};
         projects := []; integrations := [];
         relationships :=
           {| companyTechnologies := []; projectModules := [];
              technologyDependencies := [] |};
         dataQuality := None |}.
    split; [by vm_compute|]. by vm_compute.
Qed.

(** ** Unused companies *)

(** C4. The callback of the company loop pushes the unused-entity warning
    of a company exactly when the company is active and no project lists
    its id among its partners, so the warnings of the report under
    ["companies"] are those of the unused companies, element by element and
    in order; for a company whose status is inactive or mentioned the
    callback leaves the report untouched. *)
Theorem C4_unused_company (data : PortfolioData) :
  let r := validateDataQuality data in
  let used := usedCompanyIds (collectUsedIds data) in
  (∀ report company,
     check_company_used used report company =
     if decide (company_unused data company)
     then report_unused (unused_company_warning company) report
     else report)
  ∧ filter (λ w, warn_entity w = "companies") (warnings r) =
    unused_company_warning <$>
      filter (company_unused data) (companies (entities data))
  ∧ (∀ report id name type,
       check_company_used used report
         {| company_id := id; company_name := name; company_type := type;
            company_status := CompanyInactive |} = report
       ∧ check_company_used used report
           {| company_id := id; company_name := name; company_type := type;
              company_status := CompanyMentioned |} = report).
Proof.
  intros r used. split; [|split].
  - intros report company. apply check_company_used_eq.
  - subst r. rewrite validateDataQuality_eq. simpl. unfold unused_warnings.
    rewrite !filter_app.
    rewrite (filter_nil_Forall _ (unused_technology_warning <$> _)),
      (filter_nil_Forall _ (unused_module_warning <$> _)); simpl.
    + apply filter_all_Forall. rewrite Forall_fmap. by apply Forall_true.
    + rewrite Forall_fmap. by apply Forall_true.
    + rewrite Forall_fmap. by apply Forall_true.
  - intros report id name type. by split.
Qed.

(** ** Total number of entities *)

(** C9. [stats.totalEntities] is the sum of the raw lengths of the
    companies, technologies, modules, projects and integrations
    collections, in this order; a snapshot that only holds two companies
    with the same id counts 2 entities. *)
Theorem C9_total_entities (data : PortfolioData) :
  totalEntities (stats (validateDataQuality data)) =
    Z.of_nat (length (companies (entities data)))
    + Z.of_nat (length (technologies (entities data)))
    + Z.of_nat (length (modules (entities data)))
    + Z.of_nat (length (projects data))
    + Z.of_nat (length (integrations data))
  ∧ ∀ meta rels quality name1 type1 status1 name2 type2 status2,
      totalEntities (stats (validateDataQuality
        {| projectMetadata := meta;
           entities :=
             {| companies :=
                  [ {| company_id := "acme"; company_name := name1;
                       company_type := type1; company_status := status1 |};
                    {| company_id := "acme"; company_name := name2;
                       company_type := type2; company_status := status2 |} ];
                technologies := []; modules := [] |};
           projects := []; integrations := [];
           relationships := rels; dataQuality := quality |})) = 2.
Proof.
  split.
  - by rewrite validateDataQuality_eq.
  - intros. by rewrite validateDataQuality_eq.
Qed.

(** ** Deduplication *)

Section deduplicate_facts.
Context {T : Type} `{HasId T}.
Implicit Types (entities : list T) (seen : gset string).

(** Filtering again, from the same set of seen ids, removes nothing. *)
Lemma deduplicate_from_idemp seen entities :
  deduplicate_from seen (deduplicate_from seen entities) =
  deduplicate_from seen entities.
Proof.
  revert seen. induction entities as [|e l IH]; intros seen; simpl; [done|].
  destruct (decide (entity_id e ∈ seen)) as [Hin|Hin]; [apply IH|].
  simpl. destruct (decide (entity_id e ∈ seen)); [done|]. by rewrite IH.
Qed.

Lemma deduplicate_from_snoc seen entities e :
  deduplicate_from seen (entities ++ [e]) =
  deduplicate_from seen entities ++
    (if decide (entity_id e ∈ seen ∨ entity_id e ∈ entity_id <$> entities)
     then [] else [e]).
Proof.
  revert seen. induction entities as [|x l IH]; intros seen; simpl.
  - destruct (decide (entity_id e ∈ seen)), (decide (_ ∨ _)) as [Hd|Hd];
      try done; set_solver.
  - destruct (decide (entity_id x ∈ seen)) as [Hx|Hx]; rewrite IH;
      [|rewrite <- app_comm_cons; f_equal];
      (f_equal;
       destruct (decide (_ ∨ _)) as [Hd|Hd], (decide (_ ∨ _)) as [Hd'|Hd'];
       try done; exfalso;
       change (list_fmap T string entity_id l) with (entity_id <$> l) in *;
       rewrite ?elem_of_cons, ?elem_of_union, ?elem_of_singleton in *;
       try tauto;
       destruct Hd' as [?|[Heq|?]]; try tauto; rewrite Heq in Hd; tauto).
Qed.

Lemma deduplicate_idemp entities :
  deduplicate (deduplicate entities) = deduplicate entities.
Proof. apply deduplicate_from_idemp. Qed.

Lemma deduplicate_snoc entities e :
  deduplicate (entities ++ [e]) =
  deduplicate entities ++
    (if decide (entity_id e ∈ entity_id <$> entities) then [] else [e]).
Proof.
  unfold deduplicate. rewrite deduplicate_from_snoc. f_equal.
  destruct (decide (_ ∨ _)) as [Hd|Hd], (decide (_ ∈ _)) as [Hd'|Hd'];
    try done; set_solver.
Qed.
End deduplicate_facts.

Lemma spec_first_occurrences_snoc {T} {I : HasId T} (entities : list T) e :
  spec_first_occurrences (entities ++ [e]) =
  spec_first_occurrences entities ++
    (if decide (entity_id e ∈ entity_id <$> entities) then [] else [e]).
Proof.
  unfold spec_first_occurrences.
  rewrite imap_app, join_app. f_equal.
  - f_equal. apply imap_ext. intros i x Hi.
    apply lookup_lt_Some in Hi. rewrite take_app_le by lia. done.
  - simpl. rewrite Nat.add_0_r, take_app_length. by rewrite app_nil_r.
Qed.

Lemma deduplicate_first_occurrences {T} {I : HasId T} (entities : list T) :
  deduplicate entities = spec_first_occurrences entities.
Proof.
  induction entities as [|e entities IH] using rev_ind; [done|].
  by rewrite deduplicate_snoc, spec_first_occurrences_snoc, IH.
Qed.

(** C5. Deduplicating a deduplicated snapshot changes nothing; each of the
    five collections of the deduplicated snapshot holds, in collection
    order, exactly the entities of the collection whose id is not the id of
    an earlier entity of that collection, and the rest of the snapshot is
    as it was; the filter behind it keeps an entity exactly when no earlier
    entity has its id. *)
Theorem C5_deduplicate_idempotent (s : PortfolioData) :
  deduplicateData (deduplicateData s) = deduplicateData s
  ∧ (companies (entities (deduplicateData s)) =
       spec_first_occurrences (companies (entities s))
     ∧ technologies (entities (deduplicateData s)) =
       spec_first_occurrences (technologies (entities s))
     ∧ modules (entities (deduplicateData s)) =
       spec_first_occurrences (modules (entities s))
     ∧ projects (deduplicateData s) = spec_first_occurrences (projects s)
     ∧ integrations (deduplicateData s) =
       spec_first_occurrences (integrations s)
     ∧ projectMetadata (deduplicateData s) = projectMetadata s
     ∧ relationships (deduplicateData s) = relationships s
     ∧ dataQuality (deduplicateData s) = dataQuality s)
  ∧ ∀ T (I : HasId T) (earlier : list T) (entity : T),
      deduplicate [] = @nil T
      ∧ deduplicate (earlier ++ [entity]) =
        deduplicate earlier ++
          (if decide (entity_id entity ∈ entity_id <$> earlier)
           then [] else [entity]).
Proof.
  split; [|split].
  - unfold deduplicateData. simpl. by rewrite !deduplicate_idemp.
  - unfold deduplicateData. simpl.
    rewrite <- !deduplicate_first_occurrences. by repeat split.
  - intros T I earlier entity. split; [done|]. apply deduplicate_snoc.
Qed.

(** ** Optimization *)

(** C10. [optimizeData] returns the snapshot it is given, for both values
    of [removeUnused]. *)
Theorem C10_optimizeData_identity (data : PortfolioData) (removeUnused : bool) :
  optimizeData data removeUnused = data.
Proof. unfold optimizeData. by destruct removeUnused. Qed.

(** ** Quality score *)

(** C7. Once a quality report is there, the score of the admin statistics
    is 100 minus 10 per duplicate, 15 per broken reference and 2 per unused
    entity, clamped to the range from 0 to 100. *)
Theorem C7_quality_score (qualityReport : DataQualityReport) :
  qualityScore (Some qualityReport) =
  clamp (100 - duplicates (stats qualityReport) * 10
             - brokenReferences (stats qualityReport) * 15
             - unusedEntities (stats qualityReport) * 2) 0 100.
Proof.
  unfold qualityScore, clamp.
  repeat (destruct (decide _)); lia.
Qed.

(** ** The admin quality check *)

Lemma with_duplicate_warnings_nil r : with_duplicate_warnings [] r = r.
Proof. report_fields. Qed.

Lemma with_duplicate_warnings_app ws ws' r :
  with_duplicate_warnings (ws ++ ws') r =
  with_duplicate_warnings ws' (with_duplicate_warnings ws r).
Proof. report_fields. Qed.

Lemma check_counts mkwarning (m : CountMap) r :
  foldl (check_count mkwarning) r m =
  with_duplicate_warnings
    ((λ e, mkwarning e.1 e.2) <$> filter (λ e, e.2 > 1) m) r.
Proof.
  rewrite <- bind_filter_fmap.
  apply (foldl_findings with_duplicate_warnings with_duplicate_warnings_nil
           with_duplicate_warnings_app).
  intros r' e. unfold check_count.
  destruct (decide _); [done|]. by rewrite with_duplicate_warnings_nil.
Qed.

Lemma occurrences_snoc id ids x :
  occurrences id (ids ++ [x]) =
  if decide (x = id) then S (occurrences id ids) else occurrences id ids.
Proof.
  unfold occurrences. rewrite filter_app, length_app, filter_cons.
  destruct (decide (x = id)); simpl; lia.
Qed.

Lemma occurrences_elem_of id ids : id ∈ ids ↔ (0 < occurrences id ids)%nat.
Proof.
  induction ids as [|x ids IH].
  - split; [by intros ?%elem_of_nil|]. unfold occurrences. simpl. lia.
  - rewrite elem_of_cons, occurrences_cons, IH.
    destruct (decide (x = id)); split; try lia; intuition congruence.
Qed.

Section count_map.
Variable g : string → Z.

Lemma Map_get_fmap (order : list string) key :
  Map_get ((λ k, (k, g k)) <$> order) key =
  if decide (key ∈ order) then Some (g key) else None.
Proof.
  induction order as [|k order IH]; [done|].
  rewrite fmap_cons. cbn [Map_get].
  destruct (decide (k = key)) as [->|Hne].
  - rewrite decide_True; [done|by left].
  - rewrite IH. destruct (decide (key ∈ order)) as [Hin|Hin].
    + rewrite decide_True; [done|by right].
    + rewrite decide_False; [done|]. rewrite elem_of_cons. naive_solver.
Qed.

Lemma Map_set_fmap_new (order : list string) key value :
  key ∉ order →
  Map_set ((λ k, (k, g k)) <$> order) key value =
  ((λ k, (k, g k)) <$> order) ++ [(key, value)].
Proof.
  induction order as [|k order IH]; [done|].
  rewrite not_elem_of_cons. intros [Hne Hin].
  rewrite fmap_cons. cbn [Map_set].
  rewrite decide_False by done. by rewrite IH.
Qed.

Lemma Map_set_fmap_old (order : list string) key value :
  NoDup order → key ∈ order →
  Map_set ((λ k, (k, g k)) <$> order) key value =
  (λ k, (k, if decide (k = key) then value else g k)) <$> order.
Proof.
  induction 1 as [|k order Hk Hnd IH]; [by intros ?%elem_of_nil|].
  rewrite elem_of_cons. intros Hin. rewrite !fmap_cons. cbn [Map_set].
  destruct (decide (k = key)) as [->|Hne].
  - f_equal. apply list_fmap_ext. intros i k' Hk'.
    rewrite decide_False; [done|]. intros ->.
    apply Hk. by eapply list_elem_of_lookup_2.
  - f_equal. apply IH. naive_solver.
Qed.
End count_map.

(** Counting the keys of a list leaves one entry per distinct key, holding
    the number of its occurrences. *)
Lemma count_keys_counted (keys : list string) :
  ∃ order, NoDup order ∧ (∀ k, k ∈ order ↔ k ∈ keys)
           ∧ foldl count_key [] keys = counted keys order.
Proof.
  induction keys as [|key keys IH] using rev_ind.
  - exists []. split; [constructor|]. by split.
  - destruct IH as (order & Hnd & Hin & Heq).
    rewrite foldl_snoc, Heq. unfold count_key, counted.
    rewrite Map_get_fmap.
    destruct (decide (key ∈ order)) as [Hk|Hk].
    + exists order. split; [done|]. split.
      * intros k. rewrite elem_of_app, list_elem_of_singleton, Hin.
        split; [tauto|]. intros [?| ->]; [done|]. by apply Hin.
      * rewrite Map_set_fmap_old by done. apply list_fmap_ext.
        intros i k Hi. f_equal. rewrite occurrences_snoc. simpl.
        assert (0 < occurrences key keys)%nat
          by by apply occurrences_elem_of, Hin.
        destruct (decide (k = key)) as [->|Hne];
          repeat (destruct (decide _)); try lia; congruence.
    + exists (order ++ [key]). split; [|split].
      * apply NoDup_app. split; [done|]. split; [|apply NoDup_singleton].
        intros k Hk' ->%list_elem_of_singleton. done.
      * intros k. rewrite !elem_of_app, Hin. tauto.
      * rewrite Map_set_fmap_new by done. rewrite fmap_app. simpl.
        assert (occurrences key keys = 0%nat) as Hz.
        { destruct (occurrences key keys) eqn:Ho; [done|].
          exfalso. apply Hk, Hin, occurrences_elem_of. lia. }
        f_equal.
        -- apply list_fmap_ext. intros i k Hi. f_equal.
           rewrite occurrences_snoc. rewrite decide_False; [done|].
           intros ->. apply Hk. by eapply list_elem_of_lookup_2.
        -- rewrite occurrences_snoc, decide_True by done. by rewrite Hz.
Qed.

Lemma filter_counted (mkwarning : string → Z → QualityWarning)
    (keys order : list string) :
  (λ e, mkwarning e.1 e.2) <$> filter (λ e, e.2 > 1) (counted keys order) =
  (λ k, mkwarning k (Z.of_nat (occurrences k keys))) <$>
    filter (λ k, (1 < occurrences k keys)%nat) order.
Proof.
  unfold counted. induction order as [|k order IH]; [done|].
  rewrite fmap_cons, !filter_cons. cbn [snd].
  destruct (decide (_ > 1)), (decide (1 < _)%nat); try lia;
    rewrite ?fmap_cons, IH; done.
Qed.

(** The warnings of one of the two loops over a count map: one per key
    that occurs more than once. *)
Lemma check_counted mkwarning (keys : list string) r :
  ∃ dups, NoDup dups ∧ (∀ k, k ∈ dups ↔ (1 < occurrences k keys)%nat)
          ∧ foldl (check_count mkwarning) r (foldl count_key [] keys) =
            with_duplicate_warnings
              ((λ k, mkwarning k (Z.of_nat (occurrences k keys))) <$> dups) r.
Proof.
  destruct (count_keys_counted keys) as (order & Hnd & Hin & ->).
  exists (filter (λ k, (1 < occurrences k keys)%nat) order).
  split; [by apply NoDup_filter|]. split.
  - intros k. rewrite list_elem_of_filter, Hin, occurrences_elem_of. lia.
  - by rewrite check_counts, filter_counted.
Qed.

Lemma foldl_fmap {A B C} (f : A → C → A) (g : B → C) (a : A) (l : list B) :
  foldl (λ a x, f a (g x)) a l = foldl f a (g <$> l).
Proof. revert a. induction l as [|x l IH]; intros a; simpl; [done|]. apply IH. Qed.

(** C8. The admin quality check emits one warning per distinct project
    title that occurs more than once, then one per distinct skill name that
    occurs more than once, each with the number of occurrences, and adds 1
    to [stats.duplicates] per warning; titles and names are compared as
    they are, so ["X"] and ["x"] are different titles; for the titles
    ["X"], ["X"], ["Y"] there is exactly one warning and
    [stats.duplicates] is 1. *)
Theorem C8_admin_duplicate_counting (projects : list AdminProject)
    (skills : list AdminSkill) (experiences : list AdminExperience) :
  let r := runQualityCheck projects skills experiences in
  let titles := admin_project_title <$> projects in
  let names := admin_skill_name <$> skills in
  (∃ dupTitles dupNames : list string,
     NoDup dupTitles
     ∧ (∀ t, t ∈ dupTitles ↔ (1 < occurrences t titles)%nat)
     ∧ NoDup dupNames
     ∧ (∀ n, n ∈ dupNames ↔ (1 < occurrences n names)%nat)
     ∧ warnings r =
       ((λ t, duplicate_title_warning t (Z.of_nat (occurrences t titles)))
          <$> dupTitles) ++
       ((λ n, duplicate_name_warning n (Z.of_nat (occurrences n names)))
          <$> dupNames)
     ∧ duplicates (stats r) =
       Z.of_nat (length dupTitles) + Z.of_nat (length dupNames))
  ∧ (∀ id1 id2 id3 f1 f2 f3 u1 u2 u3,
       let r' :=
         runQualityCheck
           [ {| admin_project_id := id1; admin_project_title := "X";
                admin_project_featured := f1; admin_project_updatedAt := u1 |};
             {| admin_project_id := id2; admin_project_title := "X";
                admin_project_featured := f2; admin_project_updatedAt := u2 |};
             {| admin_project_id := id3; admin_project_title := "Y";
                admin_project_featured := f3; admin_project_updatedAt := u3 |} ]
           [] experiences in
       warnings r' = [duplicate_title_warning "X" 2]
       ∧ duplicates (stats r') = 1)
  ∧ (∀ id1 id2 f1 f2 u1 u2,
       warnings
         (runQualityCheck
            [ {| admin_project_id := id1; admin_project_title := "X";
                 admin_project_featured := f1; admin_project_updatedAt := u1 |};
              {| admin_project_id := id2; admin_project_title := "x";
                 admin_project_featured := f2; admin_project_updatedAt := u2 |} ]
            [] experiences) = []).
Proof.
  intros r titles names. split; [|split].
  - subst r. unfold runQualityCheck.
    rewrite (foldl_fmap count_key admin_project_title),
      (foldl_fmap count_key admin_skill_name).
    fold titles names.
    set (r0 := Build_DataQualityReport _ _ _ _).
    destruct (check_counted duplicate_title_warning titles r0)
      as (dupTitles & Hnd & Hin & ->).
    destruct (check_counted duplicate_name_warning names
                (with_duplicate_warnings
                   ((λ t, duplicate_title_warning t
                            (Z.of_nat (occurrences t titles))) <$> dupTitles) r0))
      as (dupNames & Hnd' & Hin' & ->).
    exists dupTitles, dupNames. repeat (split; [done|]).
    simpl. rewrite !length_fmap. lia.
  - intros. by vm_compute.
  - intros. by vm_compute.
Qed.

(** ** The identifier schema *)

Lemma id_char_fixed c :
  id_char c = true → lower_char c = c ∧ space_char c = false.
Proof.
  destruct c as [[] [] [] [] [] [] [] []]; vm_compute; intuition congruence.
Qed.

Lemma all_chars_cons p c s :
  all_chars p (String c s) = true → p c = true ∧ all_chars p s = true.
Proof. simpl. by intros ?%andb_prop. Qed.

Lemma toLowerCase_id_chars s : all_chars id_char s = true → toLowerCase s = s.
Proof.
  induction s as [|c s IH]; [done|].
  intros [Hc Hs]%all_chars_cons. simpl.
  by rewrite IH, (proj1 (id_char_fixed c Hc)).
Qed.

Lemma trimStart_id_chars s : all_chars id_char s = true → trimStart s = s.
Proof.
  destruct s as [|c s]; [done|].
  intros [Hc _]%all_chars_cons. simpl.
  by rewrite (proj2 (id_char_fixed c Hc)).
Qed.

Lemma trimEnd_id_chars s : all_chars id_char s = true → trimEnd s = s.
Proof.
  induction s as [|c s IH]; [done|].
  intros [Hc Hs]%all_chars_cons. simpl. rewrite IH by done.
  destruct s; [|done]. by rewrite (proj2 (id_char_fixed c Hc)).
Qed.

Lemma id_regex_test_all_chars s :
  id_regex_test s = true → all_chars id_char s = true ∧ s ≠ EmptyString.
Proof. by destruct s. Qed.

(** C6 (as the code has it). The schema checks the input as it is given:
    it accepts exactly the non-empty strings over [[a-z0-9_-]], and returns
    an accepted input unchanged, which is its own lowercase, trimmed form
    and is not empty; every other input is rejected with at least one
    issue, among them inputs with an uppercase letter or with surrounding
    white space. *)
Theorem C6_identifier_schema (input : string) :
  match entityIdSchema input with
  | ParseOk value =>
      id_regex_test input = true ∧ value = input
      ∧ value = spec_normalize input ∧ value ≠ EmptyString
  | ParseError issues => id_regex_test input = false ∧ issues ≠ []
  end
  ∧ entityIdSchema "Acme" =
    ParseError
      ["ID must contain only lowercase letters, numbers, underscores, and hyphens"]
  ∧ entityIdSchema " acme " =
    ParseError
      ["ID must contain only lowercase letters, numbers, underscores, and hyphens"].
Proof.
  split; [|by split].
  unfold entityIdSchema, min_length_issues, regex_issues.
  destruct (id_regex_test input) eqn:Htest.
  - apply id_regex_test_all_chars in Htest as [Hall Hne].
    destruct input as [|c s]; [done|]. simpl app.
    assert (Hn : spec_normalize (String c s) = String c s).
    { unfold spec_normalize, trim.
      by rewrite toLowerCase_id_chars, trimStart_id_chars, trimEnd_id_chars. }
    unfold spec_normalize in Hn. rewrite Hn. by repeat split.
  - by destruct (_ <? _)%nat.
Qed.

(** C6 as the specification words it fails on ["Acme"]: its normalized form
    ["acme"] is a well-formed identifier, and the schema rejects the input. *)
Lemma C6_uppercase_rejected :
  spec_normalize "Acme" = "acme"
  ∧ spec_identifier_accepts "Acme" = true
  ∧ entityIdSchema "Acme" =
    ParseError
      ["ID must contain only lowercase letters, numbers, underscores, and hyphens"].
Proof. by repeat split. Qed.


(** * Further properties of the validator *)

(** ** Counters and lists of a report *)

Lemma length_repeated_from_le seen ids :
  (length (repeated_from seen ids) ≤ length ids)%nat.
Proof.
  revert seen. induction ids as [|x ids IH]; intros seen; simpl; [done|].
  destruct (decide (x ∈ seen)); simpl; specialize (IH ({[x]} ∪ seen)); lia.
Qed.

Lemma length_duplicate_errors_le (cs : list (string * list string)) :
  (length (cs ≫= λ c, duplicate_error c.1 <$> repeated_from ∅ c.2)
   ≤ sum_list (length <$> (snd <$> cs)))%nat.
Proof.
  induction cs as [|c cs IH]; [done|].
  rewrite bind_cons, length_app, !fmap_cons, length_fmap. simpl.
  pose proof (length_repeated_from_le ∅ c.2). lia.
Qed.

(** The counters of a report agree with its lists: every error is counted
    once, as a duplicate or as a broken reference, every warning is counted
    as an unused entity, and the duplicates are entities of the snapshot. *)
Theorem validateDataQuality_counters (data : PortfolioData) :
  let r := validateDataQuality data in
  Z.of_nat (length (errors r)) =
    duplicates (stats r) + brokenReferences (stats r)
  ∧ Z.of_nat (length (warnings r)) = unusedEntities (stats r)
  ∧ 0 ≤ duplicates (stats r) ≤ totalEntities (stats r).
Proof.
  intros r. subst r. rewrite validateDataQuality_eq. simpl.
  split; [rewrite length_app; lia|]. split; [done|].
  split; [lia|].
  pose proof (length_duplicate_errors_le (collection_ids data)) as Hle.
  fold (duplicate_errors data) in Hle. unfold collection_ids in Hle.
  simpl in Hle. rewrite !length_fmap in Hle. lia.
Qed.

(** ** Unused technologies and modules *)

Lemma collect_projects_technologies projects0 used :
  usedTechIds (foldl collect_project used projects0) =
  list_to_set (projects0 ≫= project_technologies) ∪ usedTechIds used.
Proof.
  revert used. induction projects0 as [|p l IH]; intros used; simpl.
  - set_solver.
  - rewrite IH. simpl. rewrite add_all_eq, list_to_set_app_L. set_solver.
Qed.

Lemma collect_projects_modules projects0 used :
  usedModuleIds (foldl collect_project used projects0) =
  list_to_set (projects0 ≫= project_modules) ∪ usedModuleIds used.
Proof.
  revert used. induction projects0 as [|p l IH]; intros used; simpl.
  - set_solver.
  - rewrite IH. simpl. rewrite add_all_eq, list_to_set_app_L. set_solver.
Qed.

Lemma collect_integrations_modules integrations0 used :
  usedModuleIds (foldl collect_integration used integrations0) =
  usedModuleIds used.
Proof.
  revert used. induction integrations0 as [|i l IH]; intros used; simpl; [done|].
  by rewrite IH.
Qed.

Lemma collect_integrations_technologies integrations0 used id :
  id ∈ usedTechIds (foldl collect_integration used integrations0) ↔
  id ∈ usedTechIds used
  ∨ (id ≠ "system"
     ∧ Exists (λ i, id = integration_source i ∨ id = integration_target i)
         integrations0).
Proof.
  revert used. induction integrations0 as [|i l IH]; intros used; simpl.
  - rewrite Exists_nil. tauto.
  - rewrite IH, Exists_cons. unfold collect_integration. simpl.
    destruct (decide (integration_source i ≠ "system")) as [Hs|Hs],
      (decide (integration_target i ≠ "system")) as [Ht|Ht];
      rewrite ?elem_of_union, ?elem_of_singleton;
      try apply dec_stable in Hs; try apply dec_stable in Ht;
      split; intros Hid; intuition congruence.
Qed.

Lemma usedTechIds_spec data id :
  id ∈ usedTechIds (collectUsedIds data) ↔ technology_used data id.
Proof.
  unfold collectUsedIds, technology_used.
  rewrite collect_integrations_technologies, collect_projects_technologies.
  simpl. rewrite elem_of_union, elem_of_list_to_set, list_elem_of_bind,
    !Exists_exists.
  split.
  - intros [[(p & Hp & Hin)|Hin]|Hi]; [left; by exists p| |by right].
    by apply not_elem_of_empty in Hin.
  - intros [(p & Hin & Hp)|Hi]; [left; left; by exists p|by right].
Qed.

Lemma usedModuleIds_spec data id :
  id ∈ usedModuleIds (collectUsedIds data) ↔ module_used data id.
Proof.
  unfold collectUsedIds, module_used.
  rewrite collect_integrations_modules, collect_projects_modules. simpl.
  rewrite elem_of_union, elem_of_list_to_set, list_elem_of_bind, Exists_exists.
  set_solver.
Qed.

(** The warnings under ["technologies"] are, in order, those of the
    technologies whose id no project lists among its technologies and no
    integration has as a source or target other than ["system"]. *)
Theorem unused_technology_warnings (data : PortfolioData) :
  filter (λ w, warn_entity w = "technologies")
    (warnings (validateDataQuality data)) =
  unused_technology_warning <$>
    filter (λ t, ¬ technology_used data (tech_id t))
      (technologies (entities data)).
Proof.
  rewrite validateDataQuality_eq. simpl. unfold unused_warnings.
  rewrite !filter_app.
  rewrite (filter_nil_Forall _ (unused_company_warning <$> _)),
    (filter_nil_Forall _ (unused_module_warning <$> _)); simpl.
  - rewrite app_nil_r, filter_all_Forall.
    + f_equal. apply list_filter_iff. intros t. by rewrite usedTechIds_spec.
    + rewrite Forall_fmap. by apply Forall_true.
  - rewrite Forall_fmap. by apply Forall_true.
  - rewrite Forall_fmap. by apply Forall_true.
Qed.

(** The warnings under ["modules"] are, in order, those of the modules
    whose id no project lists among its modules; the end points of the
    integrations do not count as a use of a module. *)
Theorem unused_module_warnings (data : PortfolioData) :
  filter (λ w, warn_entity w = "modules")
    (warnings (validateDataQuality data)) =
  unused_module_warning <$>
    filter (λ m, ¬ module_used data (module_id m)) (modules (entities data)).
Proof.
  rewrite validateDataQuality_eq. simpl. unfold unused_warnings.
  rewrite !filter_app.
  rewrite (filter_nil_Forall _ (unused_company_warning <$> _)),
    (filter_nil_Forall _ (unused_technology_warning <$> _)); simpl.
  - rewrite app_nil_r, filter_all_Forall.
    + f_equal. apply list_filter_iff. intros m. by rewrite usedModuleIds_spec.
    + rewrite Forall_fmap. by apply Forall_true.
  - rewrite Forall_fmap. by apply Forall_true.
  - rewrite Forall_fmap. by apply Forall_true.
Qed.

(** ** Deduplication and validation *)

Section deduplicate_ids.
Context {T : Type} {I : HasId T}.
Implicit Types (entities : list T) (seen : gset string).

Lemma elem_of_deduplicate_from_ids seen entities x :
  x ∈ entity_id <$> deduplicate_from seen entities ↔
  x ∈ entity_id <$> entities ∧ x ∉ seen.
Proof.
  revert seen. induction entities as [|e l IH]; intros seen.
  - simpl. rewrite elem_of_nil. tauto.
  - cbn [deduplicate_from]. destruct (decide (entity_id e ∈ seen)) as [He|He].
    + rewrite IH, fmap_cons, elem_of_cons. split; [tauto|].
      intros [[->|Hx] Hs]; tauto.
    + rewrite !fmap_cons, !elem_of_cons, IH, elem_of_union, elem_of_singleton.
      destruct (decide (x = entity_id e)) as [->|Hne]; tauto.
Qed.

Lemma NoDup_deduplicate_from_ids seen entities :
  NoDup (entity_id <$> deduplicate_from seen entities).
Proof.
  revert seen. induction entities as [|e l IH]; intros seen.
  - constructor.
  - cbn [deduplicate_from]. destruct (decide (entity_id e ∈ seen)); [apply IH|].
    rewrite fmap_cons. apply NoDup_cons. split; [|apply IH].
    rewrite elem_of_deduplicate_from_ids, elem_of_union, elem_of_singleton.
    tauto.
Qed.

Lemma deduplicate_from_sublist seen entities :
  deduplicate_from seen entities `sublist_of` entities.
Proof.
  revert seen. induction entities as [|e l IH]; intros seen; [done|].
  cbn [deduplicate_from]. destruct (decide (entity_id e ∈ seen)).
  - apply sublist_cons_r. left. apply IH.
  - apply sublist_skip, IH.
Qed.

Lemma deduplicate_from_fixed seen entities :
  deduplicate_from seen entities = entities ↔
  NoDup (entity_id <$> entities)
  ∧ ∀ x, x ∈ entity_id <$> entities → x ∉ seen.
Proof.
  split.
  - intros Heq. split.
    + rewrite <- Heq. apply NoDup_deduplicate_from_ids.
    + intros x Hx. rewrite <- Heq in Hx.
      by apply elem_of_deduplicate_from_ids in Hx as [_ ?].
  - revert seen. induction entities as [|e l IH]; intros seen [Hnd Hs]; [done|].
    rewrite fmap_cons in Hnd, Hs. apply NoDup_cons in Hnd as [He Hnd].
    cbn [deduplicate_from]. rewrite decide_False.
    + f_equal. apply IH. split; [done|]. intros x Hx.
      rewrite elem_of_union, elem_of_singleton. intros [->|Hx']; [done|].
      apply (Hs x); [by right|done].
    + apply Hs. by left.
Qed.
End deduplicate_ids.

Lemma repeated_from_nil seen ids :
  repeated_from seen ids = [] ↔ NoDup ids ∧ ∀ x, x ∈ ids → x ∉ seen.
Proof.
  revert seen. induction ids as [|x ids IH]; intros seen; simpl.
  - split; [|done]. intros _. split; [constructor|]. by intros ? ?%elem_of_nil.
  - destruct (decide (x ∈ seen)) as [Hx|Hx].
    + split; [done|]. intros [_ Hs]. exfalso. apply (Hs x); [by left|done].
    + rewrite IH, NoDup_cons. split.
      * intros [Hnd Hs]. split.
        -- split; [|done]. intros Hin. apply (Hs x Hin).
           rewrite elem_of_union, elem_of_singleton. by left.
        -- intros y [->|Hy]%elem_of_cons; [done|]. intros Hys.
           apply (Hs y Hy). rewrite elem_of_union. by right.
      * intros [[Hni Hnd] Hs]. split; [done|]. intros y Hy.
        rewrite elem_of_union, elem_of_singleton. intros [->|Hys]; [done|].
        apply (Hs y); [by right|done].
Qed.

Lemma duplicate_errors_nil data :
  duplicate_errors data = [] ↔ Forall (λ c, NoDup c.2) (collection_ids data).
Proof.
  unfold duplicate_errors.
  induction (collection_ids data) as [|c cs IH]; [by split|].
  rewrite bind_cons, Forall_cons, <- IH. split.
  - intros [Hc Hcs]%app_eq_nil. split; [|done].
    apply fmap_nil_inv in Hc. by apply repeated_from_nil in Hc as [? _].
  - intros [Hc ->]. rewrite app_nil_r.
    assert (repeated_from ∅ c.2 = []) as ->; [|done].
    apply repeated_from_nil. split; [done|]. intros x _.
    apply not_elem_of_empty.
Qed.

Lemma deduplicate_eq_NoDup {T} {I : HasId T} (entities : list T) :
  deduplicate entities = entities ↔ NoDup (entity_id <$> entities).
Proof.
  unfold deduplicate. rewrite deduplicate_from_fixed. split; [tauto|].
  intros Hnd. split; [done|]. intros x _. apply not_elem_of_empty.
Qed.

Lemma deduplicateData_fixed data :
  deduplicateData data = data ↔ Forall (λ c, NoDup c.2) (collection_ids data).
Proof.
  destruct data as [meta [cs ts ms] ps ints rels q].
  unfold deduplicateData, collection_ids. simpl.
  rewrite !Forall_cons, Forall_nil. simpl. split.
  - intros [= E1 E2 E3 E4 E5]. repeat split.
    + by apply (deduplicate_eq_NoDup (I:=Company_HasId)).
    + by apply (deduplicate_eq_NoDup (I:=Technology_HasId)).
    + by apply (deduplicate_eq_NoDup (I:=ModuleEntity_HasId)).
    + by apply (deduplicate_eq_NoDup (I:=DataProject_HasId)).
    + by apply (deduplicate_eq_NoDup (I:=Integration_HasId)).
  - intros (H1 & H2 & H3 & H4 & H5 & _).
    apply (deduplicate_eq_NoDup (I:=Company_HasId)) in H1.
    apply (deduplicate_eq_NoDup (I:=Technology_HasId)) in H2.
    apply (deduplicate_eq_NoDup (I:=ModuleEntity_HasId)) in H3.
    apply (deduplicate_eq_NoDup (I:=DataProject_HasId)) in H4.
    apply (deduplicate_eq_NoDup (I:=Integration_HasId)) in H5.
    by rewrite H1, H2, H3, H4, H5.
Qed.

(** Every collection of a deduplicated snapshot has pairwise different
    ids, has the ids of the collection it comes from, and is a sublist of
    it: entities are dropped, never changed or reordered. *)
Theorem deduplicate_keeps_ids {T} {I : HasId T} (entities : list T) :
  NoDup (entity_id <$> deduplicate entities)
  ∧ (∀ x, x ∈ entity_id <$> deduplicate entities ↔ x ∈ entity_id <$> entities)
  ∧ deduplicate entities `sublist_of` entities.
Proof.
  split; [apply NoDup_deduplicate_from_ids|]. split.
  - intros x. unfold deduplicate. rewrite elem_of_deduplicate_from_ids.
    split; [tauto|]. intros Hx. split; [done|]. apply not_elem_of_empty.
  - apply deduplicate_from_sublist.
Qed.

(** A snapshot is left unchanged by [deduplicateData] exactly when
    [validateDataQuality] counts no duplicate in it. *)
Theorem deduplicateData_fixed_iff_no_duplicates (data : PortfolioData) :
  deduplicateData data = data ↔
  duplicates (stats (validateDataQuality data)) = 0.
Proof.
  rewrite deduplicateData_fixed, <- duplicate_errors_nil.
  rewrite validateDataQuality_eq. simpl.
  rewrite <- length_zero_iff_nil. lia.
Qed.

Lemma duplicate_errors_deduplicateData data :
  duplicate_errors (deduplicateData data) = [].
Proof.
  apply duplicate_errors_nil, deduplicateData_fixed.
  unfold deduplicateData. simpl. by rewrite !deduplicate_idemp.
Qed.

(** Validating a deduplicated snapshot finds no duplicate: its errors are
    broken references only, and it is valid exactly when it has no broken
    reference. *)
Theorem validate_deduplicated (data : PortfolioData) :
  let r := validateDataQuality (deduplicateData data) in
  duplicates (stats r) = 0
  ∧ errors r = broken_reference_errors (deduplicateData data)
  ∧ isValid r = bool_decide (brokenReferences (stats r) = 0).
Proof.
  intros r. subst r. rewrite validateDataQuality_eq.
  cbn [stats duplicates errors isValid brokenReferences].
  rewrite duplicate_errors_deduplicateData. split; [done|]. split; [done|].
  apply bool_decide_ext. cbn [app]. rewrite <- length_zero_iff_nil. lia.
Qed.

Lemma missing_ext (known known' refs : list string) :
  (∀ x, x ∈ known ↔ x ∈ known') → missing known refs = missing known' refs.
Proof. intros Hk. apply list_filter_iff. intros x. by rewrite Hk. Qed.

Lemma endpoint_broken_reference_ext ts ts' ms ms' integration refId field :
  (∀ x, x ∈ ts ↔ x ∈ ts') → (∀ x, x ∈ ms ↔ x ∈ ms') →
  endpoint_broken_reference ts ms integration refId field =
  endpoint_broken_reference ts' ms' integration refId field.
Proof.
  intros Ht Hm. unfold endpoint_broken_reference, endpoint_broken.
  destruct (decide _) as [Hb|Hb], (decide _) as [Hb'|Hb']; try done;
    rewrite Ht, Hm in Hb; tauto.
Qed.

Lemma deduplicate_ids_iff {T} {I : HasId T} (entities : list T) x :
  x ∈ entity_id <$> deduplicate entities ↔ x ∈ entity_id <$> entities.
Proof.
  unfold deduplicate. rewrite elem_of_deduplicate_from_ids.
  split; [tauto|]. intros Hx. split; [done|]. apply not_elem_of_empty.
Qed.

Lemma project_broken_references_deduplicate data p :
  project_broken_references
    (company_id <$> deduplicate (companies (entities data)))
    (tech_id <$> deduplicate (technologies (entities data)))
    (module_id <$> deduplicate (modules (entities data))) p =
  project_broken_references
    (company_id <$> companies (entities data))
    (tech_id <$> technologies (entities data))
    (module_id <$> modules (entities data)) p.
Proof.
  unfold project_broken_references.
  by rewrite
    (missing_ext _ _ _ (deduplicate_ids_iff (I:=Company_HasId) _)),
    (missing_ext _ _ _ (deduplicate_ids_iff (I:=Technology_HasId) _)),
    (missing_ext _ _ _ (deduplicate_ids_iff (I:=ModuleEntity_HasId) _)).
Qed.

Lemma integration_broken_references_deduplicate data i :
  integration_broken_references
    (tech_id <$> deduplicate (technologies (entities data)))
    (module_id <$> deduplicate (modules (entities data)))
    (project_id <$> deduplicate (projects data)) i =
  integration_broken_references
    (tech_id <$> technologies (entities data))
    (module_id <$> modules (entities data))
    (project_id <$> projects data) i.
Proof.
  unfold integration_broken_references.
  rewrite (missing_ext _ _ _ (deduplicate_ids_iff (I:=DataProject_HasId) _)).
  by rewrite
    !(endpoint_broken_reference_ext _ _ _ _ _ _ _
        (deduplicate_ids_iff (I:=Technology_HasId) _)
        (deduplicate_ids_iff (I:=ModuleEntity_HasId) _)).
Qed.

Lemma broken_reference_errors_deduplicateData data :
  broken_reference_errors (deduplicateData data) ⊆+ broken_reference_errors data.
Proof.
  unfold broken_reference_errors, deduplicateData. simpl.
  apply submseteq_app.
  - rewrite (list_bind_ext _ _ _ _
               (project_broken_references_deduplicate data) eq_refl).
    apply bind_submseteq, sublist_submseteq, deduplicate_from_sublist.
  - rewrite (list_bind_ext _ _ _ _
               (integration_broken_references_deduplicate data) eq_refl).
    apply bind_submseteq, sublist_submseteq, deduplicate_from_sublist.
Qed.

(** Deduplication adds no broken reference: every broken reference the
    validator reports for the deduplicated snapshot is one it reports for
    the snapshot itself, so the count does not grow. *)
Theorem deduplicateData_broken_references (data : PortfolioData) :
  let r := validateDataQuality data in
  let r' := validateDataQuality (deduplicateData data) in
  errors r' ⊆+ errors r
  ∧ brokenReferences (stats r') ≤ brokenReferences (stats r).
Proof.
  intros r r'. subst r r'. rewrite !validateDataQuality_eq.
  cbn [stats errors brokenReferences].
  rewrite duplicate_errors_deduplicateData. cbn [app].
  pose proof (broken_reference_errors_deduplicateData data) as Hsub.
  split.
  - etransitivity; [exact Hsub|]. apply submseteq_inserts_l. done.
  - apply submseteq_length in Hsub. lia.
Qed.


(** * Properties of the report text *)

Lemma passed_line_not_error_line i error : passed_line ≠ error_line i error.
Proof. unfold passed_line, error_line, newline. simpl. by intros [=]. Qed.

Lemma passed_line_not_warning_line i warning :
  passed_line ≠ warning_line i warning.
Proof. unfold passed_line, warning_line, newline. simpl. by intros [=]. Qed.

Lemma passed_line_not_imap {A} (f : nat → A → string) (l : list A) :
  (∀ i x, passed_line ≠ f i x) → passed_line ∉ imap f l.
Proof.
  intros Hf [i [x [Heq _]]]%elem_of_lookup_imap_1. by apply (Hf i x).
Qed.

Ltac other_line :=
  repeat (first
    [ apply not_elem_of_nil
    | apply not_elem_of_cons; split;
      [unfold passed_line, status_line, newline; simpl; try destruct (isValid _);
       by intros [=]|]
    | apply not_elem_of_app; split
    | apply passed_line_not_imap;
      auto using passed_line_not_error_line, passed_line_not_warning_line ]).

Lemma passed_line_elem_of (report : DataQualityReport) :
  passed_line ∈ qualityReportLines report ↔
  isValid report = true ∧ errors report = [].
Proof.
  unfold qualityReportLines.
  destruct (decide (isValid report = true ∧ length (errors report) = 0%nat))
    as [Hv|Hv].
  - split.
    + destruct Hv as [? ?%length_zero_iff_nil]. done.
    + intros _. apply elem_of_app. right. by left.
  - split.
    + intros Hin. exfalso. revert Hin.
      repeat (destruct (decide _)); other_line.
    + intros [? Hnil]. exfalso. apply Hv. by rewrite Hnil.
Qed.

Lemma passed_line_last (report : DataQualityReport) :
  ∃ front,
    (passed_line ∉ front)
    ∧ qualityReportLines report =
      front ++
        (if decide (isValid report = true ∧ errors report = [])
         then [passed_line] else []).
Proof.
  unfold qualityReportLines.
  set (L := if decide (0 < length (warnings report))%nat then _ else _).
  assert (HL : passed_line ∉ L).
  { subst L. repeat (destruct (decide _)); other_line. }
  exists L. split; [done|].
  destruct (decide (isValid report = true ∧ length (errors report) = 0%nat))
    as [Hv|Hv],
    (decide (isValid report = true ∧ errors report = [])) as [Hv'|Hv'];
    try done.
  - exfalso. apply Hv'. by destruct Hv as [? ?%length_zero_iff_nil].
  - exfalso. apply Hv. by destruct Hv' as [? ->].
  - by rewrite app_nil_r.
Qed.

(** The text closes with the line that all validation checks passed
    exactly for a report that is flagged valid and holds no error: the
    line is then the last line of the text, and in every case no other line
    of the text reads the same. *)
Theorem report_text_passed_line (report : DataQualityReport) :
  (passed_line ∈ qualityReportLines report ↔
   isValid report = true ∧ errors report = [])
  ∧ ∃ front,
      (passed_line ∉ front)
      ∧ qualityReportLines report =
        front ++
          (if decide (isValid report = true ∧ errors report = [])
           then [passed_line] else []).
Proof. split; [apply passed_line_elem_of|apply passed_line_last]. Qed.




(** * Further properties of the admin hook *)

Lemma qualityScore_bounds_aux (qualityReport : option DataQualityReport) :
  0 ≤ qualityScore qualityReport ≤ 100 ∧ qualityScore None = 100.
Proof.
  split; [|done]. unfold qualityScore. destruct qualityReport; lia.
Qed.

(** The quality score lies between 0 and 100, and is 100 as long as no
    quality check has produced a report. *)
Theorem qualityScore_range (qualityReport : option DataQualityReport) :
  0 ≤ qualityScore qualityReport ≤ 100 ∧ qualityScore None = 100.
Proof. apply qualityScore_bounds_aux. Qed.

(** More findings never raise the score: a report whose three counters
    are at least those of another report scores at most as much. *)
Theorem qualityScore_antitone (r r' : DataQualityReport) :
  duplicates (stats r) ≤ duplicates (stats r') →
  brokenReferences (stats r) ≤ brokenReferences (stats r') →
  unusedEntities (stats r) ≤ unusedEntities (stats r') →
  qualityScore (Some r') ≤ qualityScore (Some r).
Proof. unfold qualityScore. lia. Qed.

Lemma qualityScore_antitone_witness :
  qualityScore
    (Some (runQualityCheck
             [ {| admin_project_id := "1"; admin_project_title := "X";
                  admin_project_featured := false;
                  admin_project_updatedAt := None |};
               {| admin_project_id := "2"; admin_project_title := "X";
                  admin_project_featured := false;
                  admin_project_updatedAt := None |} ] [] []))
  ≤ qualityScore (Some empty_report).
Proof.
  apply qualityScore_antitone; by vm_compute.
Defined.

Lemma runQualityCheck_eq projects skills experiences :
  runQualityCheck projects skills experiences =
  with_duplicate_warnings
    ((λ e, duplicate_name_warning e.1 e.2) <$>
       filter (λ e, e.2 > 1)
         (foldl count_key [] (admin_skill_name <$> skills)))
    (with_duplicate_warnings
       ((λ e, duplicate_title_warning e.1 e.2) <$>
          filter (λ e, e.2 > 1)
            (foldl count_key [] (admin_project_title <$> projects)))
       {| isValid := true; errors := []; warnings := [];
          stats := {| totalEntities :=
                        Z.of_nat (length projects) + Z.of_nat (length skills)
                        + Z.of_nat (length experiences);
                      duplicates := 0; brokenReferences := 0;
                      unusedEntities := 0 |} |}).
Proof.
  unfold runQualityCheck.
  by rewrite (foldl_fmap count_key admin_project_title),
    (foldl_fmap count_key admin_skill_name), !check_counts.
Qed.

(** The admin quality check never reports an error: its report is always
    flagged valid, counts the projects, skills and experiences as entities,
    counts no broken reference and no unused entity, and counts one
    duplicate per warning; every warning is filed under the type
    [unused_entity]; the score derived from the report only loses 10 per
    warning. *)
Theorem runQualityCheck_report (projects : list AdminProject)
    (skills : list AdminSkill) (experiences : list AdminExperience) :
  let r := runQualityCheck projects skills experiences in
  isValid r = true ∧ errors r = []
  ∧ totalEntities (stats r) =
    Z.of_nat (length projects) + Z.of_nat (length skills)
    + Z.of_nat (length experiences)
  ∧ brokenReferences (stats r) = 0 ∧ unusedEntities (stats r) = 0
  ∧ duplicates (stats r) = Z.of_nat (length (warnings r))
  ∧ Forall (λ w, warn_type w = UnusedEntity) (warnings r)
  ∧ qualityScore (Some r) =
    Z.max 0 (100 - 10 * Z.of_nat (length (warnings r))).
Proof.
  intros r. subst r. rewrite runQualityCheck_eq.
  unfold qualityScore. simpl.
  repeat (split; [done|]). split; [rewrite length_app; lia|]. split.
  - rewrite Forall_app, !Forall_fmap. split; by apply Forall_true.
  - rewrite length_app. lia.
Qed.

Lemma NoDup_occurrences (keys : list string) :
  NoDup keys ↔ ∀ k, (occurrences k keys ≤ 1)%nat.
Proof.
  induction keys as [|x keys IH].
  - split; [intros _ k; unfold occurrences; simpl; lia|constructor].
  - rewrite NoDup_cons, IH. split.
    + intros [Hx Hk] k. rewrite occurrences_cons.
      destruct (decide (x = k)) as [->|Hne]; [|done].
      rewrite occurrences_elem_of in Hx. lia.
    + intros Hk. split.
      * rewrite occurrences_elem_of. specialize (Hk x).
        rewrite occurrences_cons, decide_True in Hk by done. lia.
      * intros k. specialize (Hk k). rewrite occurrences_cons in Hk.
        destruct (decide (x = k)); lia.
Qed.

Lemma no_repeated_key (keys dups : list string) :
  (∀ k, k ∈ dups ↔ (1 < occurrences k keys)%nat) →
  dups = [] ↔ NoDup keys.
Proof.
  intros Hd. rewrite NoDup_occurrences. split.
  - intros -> k. specialize (Hd k). rewrite elem_of_nil in Hd. lia.
  - intros Hk. destruct dups as [|k dups]; [done|].
    specialize (Hd k). specialize (Hk k).
    assert (k ∈ k :: dups) by by left. apply Hd in H. lia.
Qed.

(** The admin quality check gives no warning exactly when the titles of
    the projects are pairwise different and so are the names of the
    skills. *)
Theorem runQualityCheck_no_warning (projects : list AdminProject)
    (skills : list AdminSkill) (experiences : list AdminExperience) :
  warnings (runQualityCheck projects skills experiences) = [] ↔
  NoDup (admin_project_title <$> projects)
  ∧ NoDup (admin_skill_name <$> skills).
Proof.
  unfold runQualityCheck.
  rewrite (foldl_fmap count_key admin_project_title),
    (foldl_fmap count_key admin_skill_name).
  set (r0 := Build_DataQualityReport _ _ _ _).
  destruct (check_counted duplicate_title_warning
              (admin_project_title <$> projects) r0)
    as (dupTitles & _ & Hin & ->).
  destruct (check_counted duplicate_name_warning
              (admin_skill_name <$> skills)
              (with_duplicate_warnings
                 ((λ t, duplicate_title_warning t
                          (Z.of_nat (occurrences t
                                       (admin_project_title <$> projects))))
                    <$> dupTitles) r0))
    as (dupNames & _ & Hin' & ->).
  simpl. rewrite <- (no_repeated_key _ _ Hin), <- (no_repeated_key _ _ Hin').
  split.
  - intros [Ht Hn]%app_eq_nil. split; by eapply fmap_nil_inv.
  - by intros [-> ->].
Qed.

(** The frequency count of the admin check: after the counting loop the
    map holds, for every key of the list, the number of its occurrences,
    and nothing for any other key; its keys are pairwise different. *)
Theorem count_key_frequencies (keys : list string) (key : string) :
  let m := foldl count_key [] keys in
  Map_get m key =
    (if decide (key ∈ keys) then Some (Z.of_nat (occurrences key keys))
     else None)
  ∧ NoDup m.*1.
Proof.
  intros m. subst m.
  destruct (count_keys_counted keys) as (order & Hnd & Hin & ->).
  unfold counted. split.
  - rewrite (Map_get_fmap (λ k, Z.of_nat (occurrences k keys))).
    destruct (decide (key ∈ order)) as [Hk|Hk], (decide (key ∈ keys)) as [Hk'|Hk'];
      try done; by apply Hin in Hk || apply Hin in Hk'.
  - rewrite <- list_fmap_compose.
    rewrite (list_fmap_ext _ id order) by done. by rewrite list_fmap_id.
Qed.

(** The derived statistics: the featured and the recently updated projects
    are counted among the projects, and the score is a percentage. *)
Theorem adminStats_bounds (now : Z) (projects : list AdminProject)
    (skills : list AdminSkill) (experiences : list AdminExperience)
    (qualityReport : option DataQualityReport) :
  let s := adminStats now projects skills experiences qualityReport in
  0 ≤ featuredProjectsCount s ≤ totalProjects s
  ∧ 0 ≤ recentlyUpdated s ≤ totalProjects s
  ∧ 0 ≤ dataQualityScore s ≤ 100.
Proof.
  intros s. subst s. unfold adminStats, featuredProjects. simpl.
  pose proof (length_filter (λ p, admin_project_featured p = true) projects).
  pose proof (length_filter
                (updated_since (now - 30 * 24 * 60 * 60 * 1000)) projects).
  pose proof (proj1 (qualityScore_bounds_aux qualityReport)).
  lia.
Qed.


(** * Properties of the public project list *)

(** ** Sorting by insertion *)

Section sort_facts.
Context {A : Type} (compare : A → A → Z).
Let before (x y : A) : Prop := compare x y ≤ 0.
Hypothesis before_total : ∀ x y, before x y ∨ before y x.
Hypothesis before_trans : ∀ x y z, before x y → before y z → before x z.

Lemma insert_sorted_Permutation x l : insert_sorted compare x l ≡ₚ x :: l.
Proof.
  induction l as [|y l IH]; simpl; [done|].
  destruct (decide (compare x y ≤ 0)); [done|].
  rewrite IH. apply Permutation_swap.
Qed.

Lemma sort_Permutation l : sort compare l ≡ₚ l.
Proof.
  unfold sort. induction l as [|x l IH]; simpl; [done|].
  by rewrite insert_sorted_Permutation, IH.
Qed.

Lemma insert_sorted_StronglySorted x l :
  StronglySorted before l → StronglySorted before (insert_sorted compare x l).
Proof.
  induction 1 as [|y l Hl IH Hy]; simpl; [by repeat constructor|].
  destruct (decide (compare x y ≤ 0)) as [Hxy|Hxy].
  - constructor; [by constructor|]. constructor; [done|].
    eapply Forall_impl; [exact Hy|]. intros z Hz. by eapply before_trans.
  - constructor; [done|]. rewrite insert_sorted_Permutation.
    constructor; [|done]. by destruct (before_total x y).
Qed.

Lemma sort_StronglySorted l : StronglySorted before (sort compare l).
Proof.
  unfold sort. induction l as [|x l IH]; simpl; [constructor|].
  by apply insert_sorted_StronglySorted.
Qed.

Lemma sort_sorted l : StronglySorted before l → sort compare l = l.
Proof.
  unfold sort. induction 1 as [|x l Hl IH Hx]; simpl; [done|].
  rewrite IH. destruct l as [|y l]; [done|]. simpl.
  apply Forall_cons in Hx as [Hxy _]. by rewrite decide_True.
Qed.
End sort_facts.

Lemma compare_projects_before a b :
  compare_projects a b ≤ 0 ↔ comes_before a b.
Proof.
  unfold compare_projects, comes_before.
  destruct (featured a), (featured b); simpl;
    repeat (destruct (decide _)); try done; intuition (try done; lia).
Qed.

Lemma compare_projects_total a b :
  compare_projects a b ≤ 0 ∨ compare_projects b a ≤ 0.
Proof.
  rewrite !compare_projects_before. unfold comes_before.
  destruct (featured a), (featured b); intuition (try done; lia).
Qed.

Lemma compare_projects_trans a b c :
  compare_projects a b ≤ 0 → compare_projects b c ≤ 0 →
  compare_projects a c ≤ 0.
Proof.
  rewrite !compare_projects_before. unfold comes_before.
  destruct (featured a), (featured b), (featured c);
    intuition (try done; lia).
Qed.

(** ** The deduplication loop *)

Lemma dedupe_fold seen acc (l : list Project) :
  foldl dedupe_step (seen, acc) l =
  (list_to_set (project_key <$> l) ∪ seen,
   acc ++ @deduplicate_from Project project_key seen l).
Proof.
  revert seen acc. induction l as [|p l IH]; intros seen acc; simpl.
  - rewrite app_nil_r. f_equal. set_solver.
  - unfold dedupe_step at 2, entity_id. simpl.
    destruct (decide (project_key p ∈ seen)) as [Hp|Hp]; rewrite IH.
    + f_equal. set_solver.
    + rewrite <- app_assoc. f_equal. set_solver.
Qed.

Lemma subscriptionProjects_eq updated :
  subscriptionProjects updated =
  sort compare_projects
    (@deduplicate Project project_key (filter has_required_fields updated)).
Proof. unfold subscriptionProjects. by rewrite dedupe_fold. Qed.

Lemma StronglySorted_iff {A} (R R' : A → A → Prop) l :
  (∀ x y, R x y ↔ R' x y) → StronglySorted R l → StronglySorted R' l.
Proof.
  intros HR. induction 1 as [|x l Hl IH Hx]; constructor; [done|].
  eapply Forall_impl; [exact Hx|]. intros y. apply HR.
Qed.

Lemma subscriptionProjects_content_aux (updated : list Project) :
  let kept := subscriptionProjects updated in
  NoDup (project_key <$> kept)
  ∧ Forall has_required_fields kept
  ∧ kept ⊆+ updated
  ∧ ∀ k, k ∈ project_key <$> kept ↔
         k ∈ project_key <$> filter has_required_fields updated.
Proof.
  intros kept. subst kept. rewrite subscriptionProjects_eq.
  set (valid := filter has_required_fields updated).
  pose proof (sort_Permutation compare_projects
                (@deduplicate Project project_key valid)) as Hperm.
  pose proof (@deduplicate_from_sublist Project project_key ∅ valid) as Hsub.
  fold (@deduplicate Project project_key valid) in Hsub.
  split; [|split; [|split]].
  - rewrite Hperm. apply (@NoDup_deduplicate_from_ids Project project_key).
  - rewrite Hperm. apply Forall_forall. intros p Hp.
    apply (elem_of_sublist _ _ _ Hp) in Hsub.
    by apply list_elem_of_filter in Hsub as [? _].
  - rewrite Hperm. apply sublist_submseteq.
    etransitivity; [exact Hsub|]. apply sublist_filter.
  - intros k. rewrite Hperm.
    apply (@deduplicate_ids_iff Project project_key).
Qed.

Lemma subscriptionProjects_sorted_aux (updated : list Project) :
  StronglySorted comes_before (subscriptionProjects updated).
Proof.
  rewrite subscriptionProjects_eq.
  eapply StronglySorted_iff; [apply compare_projects_before|].
  apply sort_StronglySorted.
  - apply compare_projects_total.
  - apply compare_projects_trans.
Qed.

(** The list the hook keeps: no two projects have the same normalized
    title and category, every project has a title, a description and a
    category, the projects are projects of the update, none twice, and every
    key of a complete project of the update is still there. *)
Theorem subscriptionProjects_content (updated : list Project) :
  let kept := subscriptionProjects updated in
  NoDup (project_key <$> kept)
  ∧ Forall has_required_fields kept
  ∧ kept ⊆+ updated
  ∧ ∀ k, k ∈ project_key <$> kept ↔
         k ∈ project_key <$> filter has_required_fields updated.
Proof. apply subscriptionProjects_content_aux. Qed.

(** The list the hook keeps is in order: no project that is not featured
    comes before a featured one, and among the featured projects, and among
    the others, the priorities do not increase along the list, a missing
    priority counting as 0. *)
Theorem subscriptionProjects_sorted (updated : list Project) :
  StronglySorted comes_before (subscriptionProjects updated).
Proof. apply subscriptionProjects_sorted_aux. Qed.

(** Handing the kept list back to the callback changes nothing. *)
Theorem subscriptionProjects_idempotent (updated : list Project) :
  subscriptionProjects (subscriptionProjects updated) =
  subscriptionProjects updated.
Proof.
  rewrite (subscriptionProjects_eq (subscriptionProjects updated)).
  destruct (subscriptionProjects_content_aux updated) as (Hnd & Hvalid & _ & _).
  pose proof (subscriptionProjects_sorted_aux updated) as Hsorted.
  simpl in Hnd, Hvalid.
  rewrite filter_all_Forall by done.
  rewrite (proj2 (@deduplicate_eq_NoDup Project project_key _)) by done.
  apply sort_sorted.
  eapply StronglySorted_iff; [|exact Hsorted].
  intros x y. symmetry. apply compare_projects_before.
Qed.

Lemma featured_then_others (l : list Project) :
  StronglySorted comes_before l →
  featured_projects l ++ other_projects l =
  filter (λ p, disabled p = false) l.
Proof.
  unfold featured_projects, other_projects.
  induction 1 as [|x l Hl IH Hx]; [done|].
  rewrite !filter_cons. destruct (featured x) eqn:Hf.
  - destruct (decide (_ ∧ _)) as [[_ Hd]|Hd], (decide (_ ∧ _)) as [[? _]|_],
      (decide (disabled x = false)) as [Hd'|Hd'];
      try done; try tauto; by rewrite <- ?app_comm_cons, IH.
  - assert (filter (λ p, featured p = true ∧ disabled p = false) l = []) as Hnil.
    { apply filter_nil_Forall. eapply Forall_impl; [exact Hx|].
      intros y [Hy _] [Hfy _]. apply Hy in Hfy. congruence. }
    rewrite Hnil in IH |- *. simpl in IH.
    destruct (decide (_ ∧ _)) as [[? _]|_], (decide (_ ∧ _)) as [[_ Hd]|Hd],
      (decide (disabled x = false)) as [Hd'|Hd'];
      try done; try tauto; by rewrite ?app_nil_l, IH.
Qed.

(** The two lists the hook derives from the kept list, the featured
    projects and the others, put one after the other are the kept list
    without its disabled projects, in the same order. *)
Theorem featured_and_others_of_kept (updated : list Project) :
  let kept := subscriptionProjects updated in
  featured_projects kept ++ other_projects kept =
  filter (λ p, disabled p = false) kept.
Proof. apply featured_then_others, subscriptionProjects_sorted_aux. Qed.
